(** * Case / message service layer of the conflict-management backend

    A shallow embedding of
      - backend/src/models/Case.js, backend/src/models/Message.js
      - the Case and Message repositories
      - CaseService and MessageService
    Documents live in two collections keyed by [_id]; service methods are
    computations over a world made of the two collections and the clock. *)

From stdpp Require Import base strings gmap list sorting.
From Stdlib Require Import ZArith.

Local Open Scope string_scope.

(** ** JavaScript values and failures *)

#[local] Unset Elimination Schemes.
(** Values a JSON request body can carry; the keys of an object are distinct. *)
Inductive jsval :=
| JNull
| JBool (b : bool)
| JNum (n : Z)
| JStr (s : string)
| JArr (l : list jsval)
| JObj (l : list (string * jsval)).
#[local] Set Elimination Schemes.

(** [if (v)] on a value that is present. *)
Definition truthy (v : jsval) : bool :=
  match v with
  | JNull => false
  | JBool b => b
  | JNum n => negb (n =? 0)%Z
  | JStr s => negb (String.eqb s "")
  | JArr _ | JObj _ => true
  end.

(** [if (o[k])]: a missing key reads as [undefined], which is falsy. *)
Definition truthy_at (o : gmap string jsval) (k : string) : bool :=
  match o !! k with
  | Some v => truthy v
  | None => false
  end.

Inductive error :=
| NotFound          (* statusCode 404 *)
| Forbidden         (* statusCode 403 *)
| TypeError         (* property read on undefined / null *)
| ValidationError   (* schema validator rejected a document or an update *)
| CastError         (* a value cannot be cast to the schema type *)
| StoreError.       (* the document store refused the query *)

Inductive result (A : Type) :=
| Ok (a : A)
| Throw (e : error).
Arguments Ok {A} a.
Arguments Throw {A} e.

Global Instance result_ret : MRet result := fun A a => Ok a.
Global Instance result_bind : MBind result := fun A B f r =>
  match r with
  | Ok a => f a
  | Throw e => Throw e
  end.

Global Instance result_fmap : FMap result := fun A B f r =>
  match r with
  | Ok a => Ok (f a)
  | Throw e => Throw e
  end.

Global Instance error_eq_dec : EqDecision error.
Proof. solve_decision. Defined.

Definition ObjectId := string.
Definition Time := Z.
Bind Scope Z_scope with Time.

(** [x.toString()] where [x] may be [undefined] or [null]. *)
Definition toString (x : option ObjectId) : result string :=
  match x with
  | Some s => Ok s
  | None => Throw TypeError
  end.

(** [Array.prototype.some] with a callback that may throw. *)
Fixpoint Array_some {A} (f : A → result bool) (l : list A) : result bool :=
  match l with
  | [] => Ok false
  | x :: rest => b ← f x; if b : bool then Ok true else Array_some f rest
  end.

(** [Array.prototype.find]. *)
Fixpoint Array_find {A} (f : A → bool) (l : list A) : option A :=
  match l with
  | [] => None
  | x :: rest => if f x then Some x else Array_find f rest
  end.

Definition is_ws (c : Ascii.ascii) : bool :=
  let n := Ascii.nat_of_ascii c in
  (n =? 32)%nat || ((9 <=? n)%nat && (n <=? 13)%nat).

Fixpoint trim_left (s : string) : string :=
  match s with
  | String c r => if is_ws c then trim_left r else s
  | EmptyString => EmptyString
  end.

Fixpoint trim_right (s : string) : string :=
  match s with
  | String c r =>
      match trim_right r with
      | EmptyString => if is_ws c then EmptyString else String c EmptyString
      | r' => String c r'
      end
  | EmptyString => EmptyString
  end.

(** [String.prototype.trim], as the schemas' [trim: true] applies it. *)
Definition trim (s : string) : string := trim_right (trim_left s).

(** ** The acting user, as handed over by the authentication boundary *)

Record User := {
  id : ObjectId;
  role : string;
  panelistId : option ObjectId;   (* optional: [None] is undefined / null *)
  name : string
}.

(** ** models/Case.js

    The paths the service layer reads or writes; parties, documents, notes
    and the resolution counters are carried through untouched by every
    operation below and are left out. *)

Record AssignedPanelist := {
  panelist : ObjectId;
  assignedAt : Time;
  assignedBy : ObjectId;
  status : string                 (* enum: active, removed, completed *)
}.

Module Case.
Record t := {
  title : string;
  description : string;
  type : string;                (* enum: marriage, land, property, family *)
  status : string;              (* enum, see [status_enum] *)
  priority : string;            (* enum: low, medium, high, urgent *)
  createdBy : ObjectId;
  assignedTo : option ObjectId;
  assignedAt : option Time;
  (* [None]: the stored document has no such field; a hydrated document
     reads it as the empty array, a lean one as undefined *)
  assignedPanelists : option (list AssignedPanelist);
  panelAssignedAt : option Time;
  createdAt : Time;
  updatedAt : Time
}.

Definition type_enum : list string := ["marriage"; "land"; "property"; "family"].
Definition status_enum : list string :=
  ["open"; "assigned"; "panel_assigned"; "in_progress"; "resolved"; "closed"].
Definition priority_enum : list string := ["low"; "medium"; "high"; "urgent"].
Definition panelist_status_enum : list string := ["active"; "removed"; "completed"].

(** What Mongoose hands out for a document that is not lean: array paths
    default to the empty array. *)
Definition hydrate (c : t) : t :=
  {| title := title c; description := description c; type := type c;
     status := status c; priority := priority c; createdBy := createdBy c;
     assignedTo := assignedTo c; assignedAt := assignedAt c;
     assignedPanelists := Some (default [] (assignedPanelists c));
     panelAssignedAt := panelAssignedAt c;
     createdAt := createdAt c; updatedAt := updatedAt c |}.

Definition panelists (c : t) : list AssignedPanelist :=
  default [] (assignedPanelists c).

Definition set_assignedPanelists (l : list AssignedPanelist) (c : t) : t :=
  {| title := title c; description := description c; type := type c;
     status := status c; priority := priority c; createdBy := createdBy c;
     assignedTo := assignedTo c; assignedAt := assignedAt c;
     assignedPanelists := Some l;
     panelAssignedAt := panelAssignedAt c;
     createdAt := createdAt c; updatedAt := updatedAt c |}.

Definition set_status (s : string) (c : t) : t :=
  {| title := title c; description := description c; type := type c;
     status := s; priority := priority c; createdBy := createdBy c;
     assignedTo := assignedTo c; assignedAt := assignedAt c;
     assignedPanelists := assignedPanelists c;
     panelAssignedAt := panelAssignedAt c;
     createdAt := createdAt c; updatedAt := updatedAt c |}.

Definition set_panelAssignedAt (now : Time) (c : t) : t :=
  {| title := title c; description := description c; type := type c;
     status := status c; priority := priority c; createdBy := createdBy c;
     assignedTo := assignedTo c; assignedAt := assignedAt c;
     assignedPanelists := assignedPanelists c;
     panelAssignedAt := Some now;
     createdAt := createdAt c; updatedAt := updatedAt c |}.

Definition set_updatedAt (now : Time) (c : t) : t :=
  {| title := title c; description := description c; type := type c;
     status := status c; priority := priority c; createdBy := createdBy c;
     assignedTo := assignedTo c; assignedAt := assignedAt c;
     assignedPanelists := assignedPanelists c;
     panelAssignedAt := panelAssignedAt c;
     createdAt := createdAt c; updatedAt := now |}.
End Case.

(** ** models/Message.js (attachment metadata left out) *)

Record Sender := {
  userType : string;              (* enum: admin, panelist, client *)
  s_userId : ObjectId;
  s_panelistId : option ObjectId;
  s_name : string
}.

Record Recipient := {
  recipientType : string;         (* enum: party, panelist, admin, all_parties *)
  userId : option ObjectId;
  r_panelistId : option ObjectId;
  r_name : string;
  email : option string;
  isRead : bool;
  readAt : option Time
}.

Module Message.
Record t := {
  case : ObjectId;
  sender : Sender;
  recipients : list Recipient;
  subject : option string;
  content : string;
  messageType : string;
  priority : string;
  isDeleted : bool;
  createdAt : Time;
  updatedAt : Time
}.

Definition userType_enum : list string := ["admin"; "panelist"; "client"].
Definition recipientType_enum : list string :=
  ["party"; "panelist"; "admin"; "all_parties"].
Definition messageType_enum : list string :=
  ["general"; "meeting_notification"; "case_update"; "resolution_request"].
Definition priority_enum : list string := ["low"; "normal"; "high"; "urgent"].

Definition set_recipients (rs : list Recipient) (m : t) : t :=
  {| case := case m; sender := sender m; recipients := rs;
     subject := subject m; content := content m;
     messageType := messageType m;
     priority := priority m; isDeleted := isDeleted m;
     createdAt := createdAt m; updatedAt := updatedAt m |}.

Definition set_isDeleted (b : bool) (m : t) : t :=
  {| case := case m; sender := sender m; recipients := recipients m;
     subject := subject m; content := content m;
     messageType := messageType m;
     priority := priority m; isDeleted := b;
     createdAt := createdAt m; updatedAt := updatedAt m |}.

Definition set_updatedAt (now : Time) (m : t) : t :=
  {| case := case m; sender := sender m; recipients := recipients m;
     subject := subject m; content := content m;
     messageType := messageType m;
     priority := priority m; isDeleted := isDeleted m;
     createdAt := createdAt m; updatedAt := now |}.
End Message.

Definition in_enum (s : string) (e : list string) : bool :=
  existsb (String.eqb s) e.

(** ** The world: both collections and the clock *)

Record World := {
  clock : nat → Time;             (* the k-th reading [Date.now()] returns *)
  ticks : nat;                    (* readings taken so far *)
  caseDb : gmap ObjectId Case.t;
  messageDb : gmap ObjectId Message.t
}.

Definition M (A : Type) : Type := World → result A * World.

Global Instance M_ret : MRet M := fun A a w => (Ok a, w).
Global Instance M_bind : MBind M := fun A B f m w =>
  match m w with
  | (Ok a, w') => f a w'
  | (Throw e, w') => (Throw e, w')
  end.

Definition throw {A} (e : error) : M A := fun w => (Throw e, w).
Definition lift {A} (r : result A) : M A := fun w => (r, w).

(** The world after [n] more clock readings. *)
Definition advance (n : nat) (w : World) : World :=
  {| clock := clock w; ticks := n + ticks w;
     caseDb := caseDb w; messageDb := messageDb w |}.

(** [Date.now()] / [new Date()] *)
Definition Date_now : M Time := fun w =>
  (Ok (clock w (ticks w)),
   {| clock := clock w; ticks := S (ticks w);
      caseDb := caseDb w; messageDb := messageDb w |}).

Definition cases : M (gmap ObjectId Case.t) := fun w => (Ok (caseDb w), w).
Definition messages : M (gmap ObjectId Message.t) := fun w => (Ok (messageDb w), w).

Definition putCase (i : ObjectId) (c : Case.t) : M unit := fun w =>
  (Ok tt, {| clock := clock w; ticks := ticks w;
             caseDb := <[i := c]> (caseDb w); messageDb := messageDb w |}).

Definition putMessages (db : gmap ObjectId Message.t) : M unit := fun w =>
  (Ok tt, {| clock := clock w; ticks := ticks w;
             caseDb := caseDb w; messageDb := db |}).

Definition putMessage (i : ObjectId) (m : Message.t) : M unit :=
  db ← messages; putMessages (<[i := m]> db).

(** ** Query filters

    A filter is a JS object from paths to values.  A document matches when
    every path of the filter matches.  A dotted path into an array of embedded
    documents matches when SOME element of the array carries the value, and
    each path is resolved on its own: two dotted paths into the same array
    may be satisfied by two different elements. *)

Inductive qval :=
| QUndef
| QStr (s : string)
| QBool (b : bool).

Definition matches {D} (paths : list string) (holds : D → string → qval → bool)
    (filter : gmap string qval) (d : D) : bool :=
  forallb (fun k => match filter !! k with
                    | Some v => holds d k v
                    | None => true
                    end) paths.

Definition find_docs {D} (p : D → bool) (db : gmap ObjectId D) : list (ObjectId * D) :=
  List.filter (fun d => p d.2) (map_to_list db).

(** [.skip((page - 1) * limit).limit(limit)]: the store refuses a negative
    skip, reads limit 0 as no limit and a negative limit by its size. *)
Definition paginate {A} (page limit : Z) (l : list A) : result (list A) :=
  let skip := ((page - 1) * limit)%Z in
  if (skip <? 0)%Z then Throw StoreError
  else
    let rest := drop (Z.to_nat skip) l in
    Ok (if (limit =? 0)%Z then rest else take (Z.to_nat (Z.abs limit)) rest).

(** [{ total, page, limit, pages: Math.ceil(total / limit) }] *)
Record Pagination := {
  total : nat;
  page : Z;
  limit : Z;
  pages : option Z                (* [None]: division by a zero limit *)
}.

Definition ceil_div (a b : Z) : option Z :=
  if (b =? 0)%Z then None else Some (- ((- a) / b))%Z.

Definition pagination (n : nat) (page limit : Z) : Pagination :=
  {| total := n; page := page; limit := limit;
     pages := ceil_div (Z.of_nat n) limit |}.

(** Sort keys: null sorts before numbers, numbers before strings. *)
Inductive skey :=
| KNull
| KNum (n : Z)
| KStr (s : string).

Definition skey_leb (a b : skey) : bool :=
  match a, b with
  | KNull, _ => true
  | KNum _, KNull => false
  | KNum x, KNum y => (x <=? y)%Z
  | KNum _, KStr _ => true
  | KStr x, KStr y => String.leb x y
  | KStr _, _ => false
  end.

Fixpoint insert_sorted {A} (le : A → A → bool) (x : A) (l : list A) : list A :=
  match l with
  | [] => [x]
  | y :: r => if le x y then x :: l else y :: insert_sorted le x r
  end.

(** [.sort({ [sortBy]: dir })], stable. *)
Definition sort_docs {A} (keyf : A → skey) (dir : Z) (l : list A) : list A :=
  let le x y :=
    if (dir =? 1)%Z then skey_leb (keyf x) (keyf y) else skey_leb (keyf y) (keyf x) in
  foldr (insert_sorted le) [] l.

(** ** Casting JSON values to schema types *)

(** [o[k]] on a parsed object *)
Definition assoc (fs : list (string * jsval)) (k : string) : option jsval :=
  snd <$> List.find (fun kv => String.eqb kv.1 k) fs.

Definition castString (v : jsval) : result string :=
  match v with
  | JStr s => Ok s
  | _ => Throw CastError
  end.

(** [type: String, required, trim: true] *)
Definition castRequiredString (v : jsval) : result string :=
  match v with
  | JNull => Throw ValidationError
  | _ => s ← castString v;
         if String.eqb (trim s) "" then Throw ValidationError else Ok (trim s)
  end.

(** [type: String, enum: e]; the stored paths of this model hold a string,
    so anything that is not a member of the enum is rejected. *)
Definition castEnum (e : list string) (v : jsval) : result string :=
  match v with
  | JStr s => if in_enum s e then Ok s else Throw ValidationError
  | JNull => Throw ValidationError
  | _ => Throw CastError
  end.

(** [type: ObjectId, default: null] *)
Definition castRef (v : jsval) : result (option ObjectId) :=
  match v with
  | JNull => Ok None
  | JStr s => Ok (Some s)
  | _ => Throw CastError
  end.

(** [type: ObjectId, required: true] *)
Definition castRequiredRef (v : option jsval) : result ObjectId :=
  match v with
  | Some (JStr s) => Ok s
  | Some JNull | None => Throw ValidationError
  | Some _ => Throw CastError
  end.

(** [type: Date, default: null], dates given as epoch milliseconds *)
Definition castDate (v : jsval) : result (option Time) :=
  match v with
  | JNull => Ok None
  | JNum n => Ok (Some n)
  | _ => Throw CastError
  end.

Definition castTime (v : jsval) : result Time :=
  match v with
  | JNum n => Ok n
  | _ => Throw CastError
  end.

(** One element of [assignedPanelists], with the schema defaults. *)
Definition castAssignedPanelist (v : jsval) : M AssignedPanelist :=
  match v with
  | JObj fs =>
      p ← lift (castRequiredRef (assoc fs "panelist"));
      by_ ← lift (castRequiredRef (assoc fs "assignedBy"));
      at_ ← match assoc fs "assignedAt" with
            | Some a => lift (castTime a)
            | None => Date_now
            end;
      st ← match assoc fs "status" with
           | Some s => lift (castEnum Case.panelist_status_enum s)
           | None => mret "active"
           end;
      mret {| panelist := p; assignedAt := at_; assignedBy := by_; status := st |}
  | _ => throw CastError
  end.

Definition castAssignedPanelists (v : jsval) : M (list AssignedPanelist) :=
  match v with
  | JArr l => mapM castAssignedPanelist l
  | _ => throw CastError
  end.

(** An update object after casting: one optional entry per schema path. *)
Record CasePatch := {
  p_title : option string;
  p_description : option string;
  p_type : option string;
  p_status : option string;
  p_priority : option string;
  p_createdBy : option ObjectId;
  p_assignedTo : option (option ObjectId);
  p_assignedAt : option (option Time);
  p_assignedPanelists : option (list AssignedPanelist);
  p_panelAssignedAt : option (option Time);
  p_createdAt : option Time;
  p_updatedAt : option Time
}.

(** Cast the value under a path when the update object has the path. *)
Definition castAt {A} (cast : jsval → M A) (v : option jsval) : M (option A) :=
  match v with
  | Some x => a ← cast x; mret (Some a)
  | None => mret None
  end.

(** Keys that are no schema path are dropped (strict mode). *)
Definition castUpdate (u : gmap string jsval) : M CasePatch :=
  a ← castAt (fun v => lift (castRequiredString v)) (u !! "title");
  b ← castAt (fun v => lift (castRequiredString v)) (u !! "description");
  c ← castAt (fun v => lift (castEnum Case.type_enum v)) (u !! "type");
  d ← castAt (fun v => lift (castEnum Case.status_enum v)) (u !! "status");
  e ← castAt (fun v => lift (castEnum Case.priority_enum v)) (u !! "priority");
  f ← castAt (fun v => lift (castRequiredRef (Some v))) (u !! "createdBy");
  g ← castAt (fun v => lift (castRef v)) (u !! "assignedTo");
  h ← castAt (fun v => lift (castDate v)) (u !! "assignedAt");
  i ← castAt castAssignedPanelists (u !! "assignedPanelists");
  j ← castAt (fun v => lift (castDate v)) (u !! "panelAssignedAt");
  k ← castAt (fun v => lift (castTime v)) (u !! "createdAt");
  l ← castAt (fun v => lift (castTime v)) (u !! "updatedAt");
  mret {| p_title := a; p_description := b; p_type := c; p_status := d;
          p_priority := e; p_createdBy := f; p_assignedTo := g;
          p_assignedAt := h; p_assignedPanelists := i;
          p_panelAssignedAt := j; p_createdAt := k; p_updatedAt := l |}.

(** [$set] of every path the cast update carries. *)
Definition applyPatch (p : CasePatch) (c : Case.t) : Case.t :=
  {| Case.title := default (Case.title c) (p_title p);
     Case.description := default (Case.description c) (p_description p);
     Case.type := default (Case.type c) (p_type p);
     Case.status := default (Case.status c) (p_status p);
     Case.priority := default (Case.priority c) (p_priority p);
     Case.createdBy := default (Case.createdBy c) (p_createdBy p);
     Case.assignedTo := default (Case.assignedTo c) (p_assignedTo p);
     Case.assignedAt := default (Case.assignedAt c) (p_assignedAt p);
     Case.assignedPanelists :=
       match p_assignedPanelists p with
       | Some l => Some l
       | None => Case.assignedPanelists c
       end;
     Case.panelAssignedAt := default (Case.panelAssignedAt c) (p_panelAssignedAt p);
     Case.createdAt := default (Case.createdAt c) (p_createdAt p);
     Case.updatedAt := default (Case.updatedAt c) (p_updatedAt p) |}.

(** ** CaseRepository *)

Module CaseRepository.

Definition paths : list string :=
  ["createdBy"; "assignedPanelists.panelist"; "assignedPanelists.status";
   "status"; "type"].

(** Does path [k] of the case carry [v]?  An undefined value is sent to the
    store as null, which a path matches when no value is stored under it. *)
Definition holds (c : Case.t) (k : string) (v : qval) : bool :=
  if String.eqb k "createdBy" then
    match v with
    | QStr s => String.eqb (Case.createdBy c) s
    | _ => false
    end
  else if String.eqb k "assignedPanelists.panelist" then
    match v with
    | QStr s => existsb (fun ap => String.eqb (panelist ap) s) (Case.panelists c)
    | QUndef => match Case.panelists c with [] => true | _ => false end
    | QBool _ => false
    end
  else if String.eqb k "assignedPanelists.status" then
    match v with
    | QStr s => existsb (fun ap => String.eqb (status ap) s) (Case.panelists c)
    | QUndef => match Case.panelists c with [] => true | _ => false end
    | QBool _ => false
    end
  else if String.eqb k "status" then
    match v with
    | QStr s => String.eqb (Case.status c) s
    | _ => false
    end
  else if String.eqb k "type" then
    match v with
    | QStr s => String.eqb (Case.type c) s
    | _ => false
    end
  else false.

Definition matchesCase (filter : gmap string qval) (c : Case.t) : bool :=
  matches paths holds filter c.

Definition sort_key (sortBy : string) (c : Case.t) : skey :=
  let ofTime (o : option Time) := match o with Some n => KNum n | None => KNull end in
  if String.eqb sortBy "createdAt" then KNum (Case.createdAt c)
  else if String.eqb sortBy "updatedAt" then KNum (Case.updatedAt c)
  else if String.eqb sortBy "assignedAt" then ofTime (Case.assignedAt c)
  else if String.eqb sortBy "panelAssignedAt" then ofTime (Case.panelAssignedAt c)
  else if String.eqb sortBy "title" then KStr (Case.title c)
  else if String.eqb sortBy "description" then KStr (Case.description c)
  else if String.eqb sortBy "type" then KStr (Case.type c)
  else if String.eqb sortBy "status" then KStr (Case.status c)
  else if String.eqb sortBy "priority" then KStr (Case.priority c)
  else if String.eqb sortBy "createdBy" then KStr (Case.createdBy c)
  else if String.eqb sortBy "assignedTo" then
    match Case.assignedTo c with Some a => KStr a | None => KNull end
  else KNull.

(** [Case.find(filter).populate(..).sort(sort).skip(skip).limit(limit).lean()];
    the populated display records of users and panelists are not modelled,
    references stay ids. *)
Definition findCasesWithPopulation (filter : gmap string qval) (page limit : Z)
    (sortBy : string) (dir : Z) : M (list (ObjectId * Case.t)) :=
  db ← cases;
  lift (paginate page limit
          (sort_docs (fun d => sort_key sortBy d.2) dir
             (find_docs (matchesCase filter) db))).

(** [Case.find({ 'assignedPanelists.panelist': panelistId,
                 'assignedPanelists.status': 'active' })
       .populate(..).sort({ createdAt: -1 }).skip(skip).limit(limit).lean()] *)
Definition findByPanelist (panelistId : ObjectId) (page limit : Z)
    : M (list (ObjectId * Case.t)) :=
  db ← cases;
  lift (paginate page limit
          (sort_docs (fun d => sort_key "createdAt" d.2) (-1)
             (find_docs (matchesCase
                (<["assignedPanelists.status" := QStr "active"]>
                   (<["assignedPanelists.panelist" := QStr panelistId]> ∅))) db))).

Definition countCases (filter : gmap string qval) : M nat :=
  db ← cases; mret (length (find_docs (matchesCase filter) db)).

(** [Case.findById(id)], lean or hydrated *)
Definition findById (i : ObjectId) (lean : bool) : M (option Case.t) :=
  db ← cases;
  mret ((if lean then fun c => c else Case.hydrate) <$> db !! i).

(** [Case.findByIdAndUpdate(id, updateData, { new: true, runValidators: true })]:
    the update is cast and validated first; no document hook runs. *)
Definition updateById (i : ObjectId) (updateData : gmap string jsval)
    : M (option Case.t) :=
  p ← castUpdate updateData;
  db ← cases;
  match db !! i with
  | None => mret None
  | Some c =>
      let c' := applyPatch p c in
      putCase i c';; mret (Some (Case.hydrate c'))
  end.

(** [doc.save()]: the pre-save hook stamps [updatedAt], then the document is
    written back under its id. *)
Definition save (i : ObjectId) (c : Case.t) : M Case.t :=
  now ← Date_now;
  let c' := Case.set_updatedAt now c in
  putCase i c';; mret c'.

End CaseRepository.

(** ** CaseService *)

Module CaseService.

(** The callback of [assignedPanelists.some(..)]: both [toString()] calls
    are evaluated before [&&]. *)
Definition isActiveEntryOf (user : User) (ap : AssignedPanelist) : result bool :=
  mine ← toString (panelistId user);
  mret (String.eqb (panelist ap) mine && String.eqb (status ap) "active").

Definition _checkCaseAccess (caseData : Case.t) (user : User) : result bool :=
  if String.eqb (role user) "admin" then Ok true
  else
    (if String.eqb (role user) "client"
     then if negb (String.eqb (Case.createdBy caseData) (id user))
          then Throw Forbidden else Ok tt
     else Ok tt);;
    (if String.eqb (role user) "panelist"
     then
       aps ← match Case.assignedPanelists caseData with
             | Some l => Ok l
             | None => Throw TypeError     (* undefined.some *)
             end;
       isPanelist ← Array_some (isActiveEntryOf user) aps;
       if negb isPanelist then Throw Forbidden else Ok tt
     else Ok tt);;
    Ok true.

(** The filter object [listCases] builds before it queries. *)
Definition listFilter (user : User) (status type : option string)
    : gmap string qval :=
  let filter : gmap string qval := ∅ in
  let filter :=
    if String.eqb (role user) "client" then
      <["createdBy" := QStr (id user)]> filter
    else if String.eqb (role user) "panelist" then
      <["assignedPanelists.status" := QStr "active"]>
        (<["assignedPanelists.panelist" :=
             match panelistId user with Some p => QStr p | None => QUndef end]>
           filter)
    else filter in
  let filter :=
    match status with
    | Some s => if negb (String.eqb s "") then <["status" := QStr s]> filter else filter
    | None => filter
    end in
  match type with
  | Some s => if negb (String.eqb s "") then <["type" := QStr s]> filter else filter
  | None => filter
  end.

Definition listCases (user : User) (page limit : Z) (status type : option string)
    (sortBy sortOrder : string) : M (list (ObjectId * Case.t) * Pagination) :=
  let filter := listFilter user status type in
  let dir := if String.eqb sortOrder "asc" then 1%Z else (-1)%Z in
  cs ← CaseRepository.findCasesWithPopulation filter page limit sortBy dir;
  n ← CaseRepository.countCases filter;
  mret (cs, pagination n page limit).

Definition restrictedFields : list string :=
  ["status"; "assignedTo"; "assignedPanelists"; "priority"].

(** [restrictedFields.forEach(f => { if (updateData[f]) delete updateData[f] })] *)
Definition stripRestricted (updateData : gmap string jsval) : gmap string jsval :=
  foldl (fun d field => if truthy_at d field then delete field d else d)
        updateData restrictedFields.

Definition updateCase (caseId : ObjectId) (updateData : gmap string jsval)
    (user : User) : M (option Case.t) :=
  existing ← CaseRepository.findById caseId false;
  match existing with
  | None => throw NotFound
  | Some existingCase =>
      lift (_checkCaseAccess existingCase user);;
      let updateData :=
        if negb (String.eqb (role user) "admin")
        then stripRestricted updateData else updateData in
      CaseRepository.updateById caseId updateData
  end.

Definition assignCase (caseId adminId assignedBy : ObjectId) : M Case.t :=
  now ← Date_now;
  updated ← CaseRepository.updateById caseId
    (<["status" := JStr "assigned"]>
       (<["assignedAt" := JNum now]> (<["assignedTo" := JStr adminId]> ∅)));
  match updated with
  | None => throw NotFound
  | Some c => mret c
  end.

Definition newPanelist (assignedBy panelistId : ObjectId) : M AssignedPanelist :=
  now ← Date_now;
  mret {| panelist := panelistId; assignedBy := assignedBy;
          assignedAt := now; status := "active" |}.

Definition assignPanelists (caseId : ObjectId) (panelistIds : list ObjectId)
    (assignedBy : ObjectId) : M Case.t :=
  found ← CaseRepository.findById caseId false;
  match found with
  | None => throw NotFound
  | Some caseData =>
      newPanelists ← mapM (newPanelist assignedBy) panelistIds;
      let caseData :=
        Case.set_assignedPanelists (Case.panelists caseData ++ newPanelists) caseData in
      let caseData := Case.set_status "panel_assigned" caseData in
      now ← Date_now;
      let caseData := Case.set_panelAssignedAt now caseData in
      CaseRepository.save caseId caseData
  end.

End CaseService.

(** ** MessageRepository and the Message model's methods *)

(** What a caller may put in a recipient entry and in a message payload;
    [None] is a missing key, filled by the schema default where there is one. *)
Record RecipientData := {
  rd_recipientType : option string;
  rd_userId : option ObjectId;
  rd_panelistId : option ObjectId;
  rd_name : option string;
  rd_email : option string;
  rd_isRead : option bool;
  rd_readAt : option Time
}.

Record MessageData := {
  md_case : ObjectId;
  md_sender : option Sender;
  md_recipients : list RecipientData;
  md_subject : option string;
  md_content : option string;
  md_messageType : option string;
  md_priority : option string;
  md_isDeleted : option bool;
  md_createdAt : option Time;
  md_updatedAt : option Time
}.

(** [{ ...messageData, sender: s }] *)
Definition with_sender (s : Sender) (d : MessageData) : MessageData :=
  {| md_case := md_case d; md_sender := Some s;
     md_recipients := md_recipients d; md_subject := md_subject d;
     md_content := md_content d; md_messageType := md_messageType d;
     md_priority := md_priority d; md_isDeleted := md_isDeleted d;
     md_createdAt := md_createdAt d; md_updatedAt := md_updatedAt d |}.

Definition requiredString (o : option string) : result string :=
  match o with
  | Some s => if String.eqb s "" then Throw ValidationError else Ok s
  | None => Throw ValidationError
  end.

Definition enumString (e : list string) (s : string) : result string :=
  if in_enum s e then Ok s else Throw ValidationError.

Definition maxlength (n : nat) (s : string) : result string :=
  if (String.length s <=? n)%nat then Ok s else Throw ValidationError.

Definition validateRecipient (d : RecipientData) : result Recipient :=
  ty ← requiredString (rd_recipientType d);
  ty ← enumString Message.recipientType_enum ty;
  nm ← requiredString (rd_name d);
  mret {| recipientType := ty; userId := rd_userId d;
          r_panelistId := rd_panelistId d; r_name := nm;
          email := trim <$> rd_email d;
          isRead := default false (rd_isRead d); readAt := rd_readAt d |}.

Definition validateSender (o : option Sender) : result Sender :=
  match o with
  | None => Throw ValidationError
  | Some s =>
      ty ← enumString Message.userType_enum (userType s);
      nm ← requiredString (Some (s_name s));
      mret {| userType := ty; s_userId := s_userId s;
              s_panelistId := s_panelistId s; s_name := nm |}
  end.

(** Does the recipient entry belong to the user?
    [r.userId && r.userId.toString() === userId.toString()] *)
Definition isRecipient (uid : ObjectId) (r : Recipient) : bool :=
  match userId r with
  | Some x => String.eqb x uid
  | None => false
  end.

Definition markRead (now : Time) (r : Recipient) : Recipient :=
  {| recipientType := recipientType r; userId := userId r;
     r_panelistId := r_panelistId r; r_name := r_name r; email := email r;
     isRead := true; readAt := Some now |}.

(** Assignment through the reference [find] returned: the first entry that
    satisfies the predicate is the one that changes. *)
Fixpoint updateFound (p : Recipient → bool) (f : Recipient → Recipient)
    (rs : list Recipient) : list Recipient :=
  match rs with
  | [] => []
  | r :: rest => if p r then f r :: rest else r :: updateFound p f rest
  end.

Module MessageRepository.

Definition paths : list string :=
  ["case"; "sender.userId"; "recipients.userId"; "recipients.isRead"; "isDeleted"].

Definition holds (m : Message.t) (k : string) (v : qval) : bool :=
  if String.eqb k "case" then
    match v with
    | QStr s => String.eqb (Message.case m) s
    | _ => false
    end
  else if String.eqb k "sender.userId" then
    match v with
    | QStr s => String.eqb (s_userId (Message.sender m)) s
    | _ => false
    end
  else if String.eqb k "recipients.userId" then
    match v with
    | QStr s => existsb (isRecipient s) (Message.recipients m)
    | _ => false
    end
  else if String.eqb k "recipients.isRead" then
    match v with
    | QBool b => existsb (fun r => Bool.eqb (isRead r) b) (Message.recipients m)
    | _ => false
    end
  else if String.eqb k "isDeleted" then
    match v with
    | QBool b => Bool.eqb (Message.isDeleted m) b
    | _ => false
    end
  else false.

Definition matchesMessage (filter : gmap string qval) (m : Message.t) : bool :=
  matches paths holds filter m.

Definition byCreatedAt (d : ObjectId * Message.t) : skey := KNum (Message.createdAt d.2).

Definition findByCase (caseId : ObjectId) (page limit : Z)
    : M (list (ObjectId * Message.t)) :=
  db ← messages;
  lift (paginate page limit
          (sort_docs byCreatedAt 1
             (find_docs (matchesMessage
                (<["isDeleted" := QBool false]> (<["case" := QStr caseId]> ∅))) db))).

Definition countByCase (caseId : ObjectId) : M nat :=
  db ← messages;
  mret (length (find_docs (matchesMessage
          (<["isDeleted" := QBool false]> (<["case" := QStr caseId]> ∅))) db)).

Definition findById (i : ObjectId) : M (option Message.t) :=
  db ← messages; mret (db !! i).

(** [doc.save()] with the pre-save hook of the schema. *)
Definition save (i : ObjectId) (m : Message.t) : M Message.t :=
  now ← Date_now;
  let m' := Message.set_updatedAt now m in
  putMessage i m';; mret m'.

(** [Message.create(messageData)]: defaults, validation, then [save]. *)
Definition create (d : MessageData) : M (ObjectId * Message.t) :=
  created ← match md_createdAt d with Some t => mret t | None => Date_now end;
  updated ← match md_updatedAt d with Some t => mret t | None => Date_now end;
  doc ← lift (
    s ← validateSender (md_sender d);
    rs ← mapM validateRecipient (md_recipients d);
    subj ← match md_subject d with
           | Some x => x' ← maxlength 200 (trim x); mret (Some x')
           | None => mret None
           end;
    body ← requiredString (trim <$> md_content d);
    body ← maxlength 5000 body;
    ty ← enumString Message.messageType_enum (default "general" (md_messageType d));
    pr ← enumString Message.priority_enum (default "normal" (md_priority d));
    mret {| Message.case := md_case d; Message.sender := s;
            Message.recipients := rs; Message.subject := subj;
            Message.content := body; Message.messageType := ty;
            Message.priority := pr;
            Message.isDeleted := default false (md_isDeleted d);
            Message.createdAt := created; Message.updatedAt := updated |});
  db ← messages;
  let i : ObjectId := fresh (dom db) in
  saved ← save i doc;
  mret (i, saved).

(** [Message.findByIdAndUpdate(id, { isDeleted: true }, { new: true })] *)
Definition deleteById (i : ObjectId) : M (option Message.t) :=
  db ← messages;
  match db !! i with
  | None => mret None
  | Some m =>
      let m' := Message.set_isDeleted true m in
      putMessage i m';; mret (Some m')
  end.

(** [MessageSchema.methods.markAsRead] *)
Definition Message_markAsRead (i : ObjectId) (this : Message.t) (uid : ObjectId)
    : M Message.t :=
  let recipient := Array_find (isRecipient uid) (Message.recipients this) in
  this ← match recipient with
         | Some r =>
             if negb (isRead r) then
               now ← Date_now;
               mret (Message.set_recipients
                       (updateFound (isRecipient uid) (markRead now)
                          (Message.recipients this)) this)
             else mret this
         | None => mret this
         end;
  save i this.

Definition markAsRead (messageId uid : ObjectId) : M (option Message.t) :=
  found ← findById messageId;
  match found with
  | None => mret None
  | Some message => m ← Message_markAsRead messageId message uid; mret (Some m)
  end.

Definition unreadFilter (uid : ObjectId) : gmap string qval :=
  <["isDeleted" := QBool false]>
    (<["recipients.isRead" := QBool false]>
       (<["recipients.userId" := QStr uid]> ∅)).

Definition findUnreadByUser (uid : ObjectId) (page limit : Z)
    : M (list (ObjectId * Message.t)) :=
  db ← messages;
  lift (paginate page limit
          (sort_docs byCreatedAt (-1)
             (find_docs (matchesMessage (unreadFilter uid)) db))).

(** [MessageSchema.statics.getUnreadCount] *)
Definition Message_getUnreadCount (uid : ObjectId) : M nat :=
  db ← messages;
  mret (length (find_docs (matchesMessage (unreadFilter uid)) db)).

Definition countUnreadByUser (uid : ObjectId) : M nat := Message_getUnreadCount uid.

(** [Message.updateMany({ _id: { $in: ids }, 'recipients.userId': uid },
      { $set: { 'recipients.$[elem].isRead': true,
                'recipients.$[elem].readAt': new Date() } },
      { arrayFilters: [{ 'elem.userId': uid }] })];
    the answer is the number of documents matched. *)
Definition bulkSelected (messageIds : list ObjectId) (uid : ObjectId)
    (i : ObjectId) (m : Message.t) : bool :=
  bool_decide (i ∈ messageIds) && existsb (isRecipient uid) (Message.recipients m).

Definition bulkMarkAsRead (messageIds : list ObjectId) (uid : ObjectId) : M nat :=
  now ← Date_now;
  db ← messages;
  putMessages
    (map_imap (fun i m =>
       Some (if bulkSelected messageIds uid i m
             then Message.set_recipients
                    ((fun r => if isRecipient uid r then markRead now r else r)
                       <$> Message.recipients m) m
             else m)) db);;
  mret (length (List.filter (fun d => bulkSelected messageIds uid d.1 d.2)
                  (map_to_list db))).

End MessageRepository.

(** ** MessageService *)

Module MessageService.

Definition _checkCaseAccess (caseData : Case.t) (user : User) : result bool :=
  if String.eqb (role user) "admin" then Ok true
  else
    (if String.eqb (role user) "client"
     then if negb (String.eqb (Case.createdBy caseData) (id user))
          then Throw Forbidden else Ok tt
     else Ok tt);;
    (if String.eqb (role user) "panelist"
     then
       isPanelist ← match Case.assignedPanelists caseData with
                    | Some l => Array_some (CaseService.isActiveEntryOf user) l
                    | None => Ok false          (* [?.] yields undefined *)
                    end;
       if negb isPanelist then Throw Forbidden else Ok tt
     else Ok tt);;
    Ok true.

Definition getMessagesByCase (caseId : ObjectId) (user : User) (page limit : Z)
    : M (list (ObjectId * Message.t) * Pagination) :=
  found ← CaseRepository.findById caseId true;
  match found with
  | None => throw NotFound
  | Some caseData =>
      lift (_checkCaseAccess caseData user);;
      ms ← MessageRepository.findByCase caseId page limit;
      n ← MessageRepository.countByCase caseId;
      mret (ms, pagination n page limit)
  end.

Definition createMessage (messageData : MessageData) (sender : User)
    : M (ObjectId * Message.t) :=
  found ← CaseRepository.findById (md_case messageData) false;
  match found with
  | None => throw NotFound
  | Some _ =>
      MessageRepository.create
        (with_sender {| userType := role sender; s_userId := id sender;
                        s_panelistId := panelistId sender;
                        s_name := name sender |} messageData)
  end.

Definition markMessageAsRead (messageId uid : ObjectId) : M Message.t :=
  message ← MessageRepository.markAsRead messageId uid;
  match message with
  | None => throw NotFound
  | Some m => mret m
  end.

(** [{ messages, unreadCount: total, pagination }] *)
Definition getUnreadMessages (uid : ObjectId) (page limit : Z)
    : M (list (ObjectId * Message.t) * nat * Pagination) :=
  ms ← MessageRepository.findUnreadByUser uid page limit;
  n ← MessageRepository.countUnreadByUser uid;
  mret (ms, n, pagination n page limit).

Definition getUnreadCount (uid : ObjectId) : M nat :=
  MessageRepository.countUnreadByUser uid.

Definition bulkMarkAsRead (messageIds : list ObjectId) (uid : ObjectId) : M nat :=
  MessageRepository.bulkMarkAsRead messageIds uid.

Definition deleteMessage (messageId : ObjectId) (user : User) : M (option Message.t) :=
  found ← MessageRepository.findById messageId;
  match found with
  | None => throw NotFound
  | Some message =>
      if negb (String.eqb (role user) "admin")
         && negb (String.eqb (s_userId (Message.sender message)) (id user))
      then throw Forbidden
      else MessageRepository.deleteById messageId
  end.

End MessageService.

(** * Further operations of the repositories and services *)

(** ** Populated references

    [populate] puts the referenced document in place of the id, or null when
    no document has the id; with [lean()] what is put there is a plain
    object.  The User and Panelist collections are parameters. *)

Record PopulatedPanelist (U P : Type) := {
  pp_panelist : option P;
  pp_assignedAt : Time;
  pp_assignedBy : option U;
  pp_status : string
}.
Arguments pp_panelist {U P} _.
Arguments pp_assignedAt {U P} _.
Arguments pp_assignedBy {U P} _.
Arguments pp_status {U P} _.

Record CaseDetails (U P : Type) := {
  d_doc : Case.t;                 (* the paths that are not populated *)
  d_createdBy : option U;
  d_assignedTo : option U;
  d_assignedPanelists : option (list (PopulatedPanelist U P))
}.
Arguments d_doc {U P} _.
Arguments d_createdBy {U P} _.
Arguments d_assignedTo {U P} _.
Arguments d_assignedPanelists {U P} _.

(** [x.toString()] where [x] is a plain object or null. *)
Definition objectToString {D} (x : option D) : result string :=
  match x with
  | Some _ => Ok "[object Object]"
  | None => Throw TypeError
  end.

(** [$group: { _id: '$field', count: { $sum: 1 } }]: one more document under
    key [k]. *)
Fixpoint bump (k : string) (acc : list (string * nat)) : list (string * nat) :=
  match acc with
  | [] => [(k, 1%nat)]
  | (k', n) :: rest =>
      if String.eqb k k' then (k', S n) :: rest else (k', n) :: bump k rest
  end.

Definition groupCount {D} (field : D → string) (docs : list (ObjectId * D))
    : list (string * nat) :=
  foldr (fun d acc => bump (field d.2) acc) [] docs.

(** A create turns a cast failure into a validation failure of the path. *)
Definition asValidation {A} (m : M A) : M A := fun w =>
  match m w with
  | (Throw CastError, w') => (Throw ValidationError, w')
  | r => r
  end.

Definition required {A} (o : option A) : result A :=
  match o with
  | Some a => Ok a
  | None => Throw ValidationError
  end.

Module caseRepo.

Section Populate.
Context {U P : Type}.
Variable users : gmap ObjectId U.
Variable panelistDocs : gmap ObjectId P.

Definition populatePanelist (ap : AssignedPanelist) : PopulatedPanelist U P :=
  {| pp_panelist := panelistDocs !! panelist ap;
     pp_assignedAt := assignedAt ap;
     pp_assignedBy := users !! assignedBy ap;
     pp_status := status ap |}.

Definition populateCase (c : Case.t) : CaseDetails U P :=
  {| d_doc := c;
     d_createdBy := users !! Case.createdBy c;
     d_assignedTo :=
       match Case.assignedTo c with
       | Some a => users !! a
       | None => None
       end;
     d_assignedPanelists :=
       match Case.assignedPanelists c with
       | Some l => Some (List.map populatePanelist l)
       | None => None
       end |}.

(** [Case.findById(id).populate('createdBy', ..).populate('assignedTo', ..)
      .populate('assignedPanelists.panelist', ..)
      .populate('assignedPanelists.assignedBy', ..).lean()] *)
Definition findByIdWithDetails (i : ObjectId) : M (option (CaseDetails U P)) :=
  db ← cases; mret (populateCase <$> db !! i).

End Populate.

(** [Case.create(caseData)]: cast, defaults, validation, then [save]. *)
Definition create (caseData : gmap string jsval) : M (ObjectId * Case.t) :=
  p ← asValidation (castUpdate caseData);
  created ← match p_createdAt p with Some t => mret t | None => Date_now end;
  updated ← match p_updatedAt p with Some t => mret t | None => Date_now end;
  doc ← lift (
    ti ← required (p_title p);
    de ← required (p_description p);
    ty ← required (p_type p);
    cb ← required (p_createdBy p);
    mret {| Case.title := ti; Case.description := de; Case.type := ty;
            Case.status := default "open" (p_status p);
            Case.priority := default "medium" (p_priority p);
            Case.createdBy := cb;
            Case.assignedTo := default None (p_assignedTo p);
            Case.assignedAt := default None (p_assignedAt p);
            Case.assignedPanelists := Some (default [] (p_assignedPanelists p));
            Case.panelAssignedAt := default None (p_panelAssignedAt p);
            Case.createdAt := created; Case.updatedAt := updated |});
  db ← cases;
  let i : ObjectId := fresh (dom db) in
  saved ← CaseRepository.save i doc;
  mret (i, saved).

(** [Case.aggregate([{ $group: { _id: '$status', count: { $sum: 1 } } },
                     { $sort: { count: -1 } }])] *)
Definition getStatsByStatus : M (list (string * nat)) :=
  db ← cases;
  mret (sort_docs (fun g => KNum (Z.of_nat g.2)) (-1)
          (groupCount Case.status (map_to_list db))).

Definition getStatsByType : M (list (string * nat)) :=
  db ← cases;
  mret (sort_docs (fun g => KNum (Z.of_nat g.2)) (-1)
          (groupCount Case.type (map_to_list db))).

End caseRepo.

Module messageRepo.

(** [Message.find({ 'sender.userId': userId, isDeleted: false })
       .sort({ createdAt: -1 }).skip(skip).limit(limit).lean()] *)
Definition findBySender (uid : ObjectId) (page limit : Z)
    : M (list (ObjectId * Message.t)) :=
  db ← messages;
  lift (paginate page limit
          (sort_docs MessageRepository.byCreatedAt (-1)
             (find_docs (MessageRepository.matchesMessage
                (<["isDeleted" := QBool false]> (<["sender.userId" := QStr uid]> ∅)))
                db))).

Definition findByRecipient (uid : ObjectId) (page limit : Z)
    : M (list (ObjectId * Message.t)) :=
  db ← messages;
  lift (paginate page limit
          (sort_docs MessageRepository.byCreatedAt (-1)
             (find_docs (MessageRepository.matchesMessage
                (<["isDeleted" := QBool false]> (<["recipients.userId" := QStr uid]> ∅)))
                db))).

(** [Message.find({ isDeleted: false }).sort({ createdAt: -1 }).limit(limit).lean()] *)
Definition getRecentMessages (limit : Z) : M (list (ObjectId * Message.t)) :=
  db ← messages;
  let found :=
    sort_docs MessageRepository.byCreatedAt (-1)
      (find_docs (MessageRepository.matchesMessage {[ "isDeleted" := QBool false ]}) db) in
  mret (if (limit =? 0)%Z then found else take (Z.to_nat (Z.abs limit)) found).

End messageRepo.

Module caseService.

Section Populate.
Context {U P : Type}.
Variable users : gmap ObjectId U.
Variable panelistDocs : gmap ObjectId P.

(** [_checkCaseAccess] as [getCaseById] calls it: on the populated, lean
    document, where [createdBy] and [panelist] are objects or null. *)
Definition isActiveEntryOf (user : User) (ap : PopulatedPanelist U P) : result bool :=
  theirs ← objectToString (pp_panelist ap);
  mine ← toString (panelistId user);
  mret (String.eqb theirs mine && String.eqb (pp_status ap) "active").

Definition _checkCaseAccess (caseData : CaseDetails U P) (user : User) : result bool :=
  if String.eqb (role user) "admin" then Ok true
  else
    (if String.eqb (role user) "client"
     then
       creator ← objectToString (d_createdBy caseData);
       if negb (String.eqb creator (id user)) then Throw Forbidden else Ok tt
     else Ok tt);;
    (if String.eqb (role user) "panelist"
     then
       aps ← match d_assignedPanelists caseData with
             | Some l => Ok l
             | None => Throw TypeError
             end;
       isPanelist ← Array_some (isActiveEntryOf user) aps;
       if negb isPanelist then Throw Forbidden else Ok tt
     else Ok tt);;
    Ok true.

Definition getCaseById (caseId : ObjectId) (user : User) : M (CaseDetails U P) :=
  found ← caseRepo.findByIdWithDetails users panelistDocs caseId;
  match found with
  | None => throw NotFound
  | Some caseData =>
      lift (_checkCaseAccess caseData user);;
      mret caseData
  end.

End Populate.

(** [caseRepo.create({ ...caseData, createdBy: userId, status: 'open' })] *)
Definition createCase (caseData : gmap string jsval) (userId : ObjectId)
    : M (ObjectId * Case.t) :=
  caseRepo.create
    (<["status" := JStr "open"]> (<["createdBy" := JStr userId]> caseData)).

(** [{ byStatus, byType }] *)
Definition getDashboardStats (user : User)
    : M (list (string * nat) * list (string * nat)) :=
  statusStats ← caseRepo.getStatsByStatus;
  typeStats ← caseRepo.getStatsByType;
  mret (statusStats, typeStats).

End caseService.

Module messageService.

Definition getRecentMessages (limit : Z) : M (list (ObjectId * Message.t)) :=
  messageRepo.getRecentMessages limit.

End messageService.

(** * Vocabulary of the properties *)

(** ** Sample data *)

Definition mkCase (owner : ObjectId) (st : string) (assignee : option ObjectId)
    (aps : option (list AssignedPanelist)) : Case.t :=
  {| Case.title := "Boundary wall"; Case.description := "Shared wall dispute";
     Case.type := "land"; Case.status := st; Case.priority := "medium";
     Case.createdBy := owner; Case.assignedTo := assignee;
     Case.assignedAt := None; Case.assignedPanelists := aps;
     Case.panelAssignedAt := None; Case.createdAt := 10%Z; Case.updatedAt := 10%Z |}.

Definition mkUser (i : ObjectId) (r : string) (p : option ObjectId) : User :=
  {| id := i; role := r; panelistId := p; name := i |}.

Definition entry (p : ObjectId) (st : string) : AssignedPanelist :=
  {| panelist := p; assignedAt := 20%Z; assignedBy := "admin1"; status := st |}.

Definition mkRecipient (u : option ObjectId) (read : bool) (at_ : option Time)
    : Recipient :=
  {| recipientType := "party"; userId := u; r_panelistId := None;
     r_name := "Party"; email := None; isRead := read; readAt := at_ |}.

Definition mkMessage (from : ObjectId) (rs : list Recipient) : Message.t :=
  {| Message.case := "c1";
     Message.sender := {| userType := "client"; s_userId := from;
                          s_panelistId := None; s_name := "Sender" |};
     Message.recipients := rs; Message.subject := None;
     Message.content := "Please review"; Message.messageType := "general";
     Message.priority := "normal"; Message.isDeleted := false;
     Message.createdAt := 50; Message.updatedAt := 50 |}.

Definition mkWorld (cs : gmap ObjectId Case.t) (ms : gmap ObjectId Message.t) : World :=
  {| clock := fun k => (100 + Z.of_nat k)%Z; ticks := 0; caseDb := cs; messageDb := ms |}.

(** ** Predicates and expected results *)

Definition activeEntryOf (pid : ObjectId) (ap : AssignedPanelist) : bool :=
  String.eqb (panelist ap) pid && String.eqb (status ap) "active".

Definition activeEntry (assignedBy : ObjectId) (w : World) (k : nat) (p : ObjectId)
    : AssignedPanelist :=
  {| panelist := p; assignedAt := clock w (k + ticks w);
     assignedBy := assignedBy; status := "active" |}.

(** Will [markAsRead] write a read mark into the message? *)
Definition needsMark (uid : ObjectId) (m : Message.t) : bool :=
  match Array_find (isRecipient uid) (Message.recipients m) with
  | Some r => negb (isRead r)
  | None => false
  end.

(** The message after the in-memory part of [markAsRead]. *)
Definition readBy (uid : ObjectId) (now : Time) (m : Message.t) : Message.t :=
  if needsMark uid m
  then Message.set_recipients
         (updateFound (isRecipient uid) (markRead now) (Message.recipients m)) m
  else m.

(** The message [markAsRead] saves, and the world it leaves. *)
Definition marked (uid : ObjectId) (m : Message.t) (w : World) : Message.t :=
  Message.set_updatedAt
    (clock w ((if needsMark uid m then 1 else 0) + ticks w))
    (readBy uid (clock w (ticks w)) m).

Definition afterMark (i uid : ObjectId) (m : Message.t) (w : World) : World :=
  {| clock := clock w;
     ticks := S (if needsMark uid m then 1 else 0) + ticks w;
     caseDb := caseDb w;
     messageDb := <[i := marked uid m w]> (messageDb w) |}.

(** What may differ between a recipient entry before and after an operation
    carried out for user [uid]: nothing but [isRead] and [readAt], and these
    only when the entry is the user's. *)
Definition entryFrame (uid : ObjectId) (r r' : Recipient) : Prop :=
  recipientType r' = recipientType r ∧ userId r' = userId r ∧
  r_panelistId r' = r_panelistId r ∧ r_name r' = r_name r ∧
  email r' = email r ∧
  (isRecipient uid r = false → r' = r).

(** Every message is still there, no message was added, and the recipient
    lists correspond entry by entry. *)
Definition storeFrame (uid : ObjectId) (db db' : gmap ObjectId Message.t) : Prop :=
  ∀ j, match db !! j, db' !! j with
       | Some m, Some m' =>
           Forall2 (entryFrame uid) (Message.recipients m) (Message.recipients m')
       | None, None => True
       | _, _ => False
       end.

(** Following the specification's words: the message is not soft-deleted and
    the user's own recipient entry is unread. *)
Definition ownUnread (uid : ObjectId) (m : Message.t) : bool :=
  negb (Message.isDeleted m)
  && existsb (fun r => isRecipient uid r && negb (isRead r)) (Message.recipients m).

Definition spec_unreadCount (uid : ObjectId) (db : gmap ObjectId Message.t) : nat :=
  length (find_docs (ownUnread uid) db).

(** Computations that read the clock and touch neither collection. *)
Definition clock_only {A} (m : M A) : Prop :=
  ∀ w, ∃ n, (m w).2 = advance n w.

Definition raises_only {A} (P : error → Prop) (r : result A) : Prop :=
  ∀ e, r = Throw e → P e.

Definition throws_only {A} (P : error → Prop) (m : M A) : Prop :=
  ∀ w, raises_only P (m w).1.

(** [a] may stand before [b] in a listing sorted on [keyf] in direction [dir]. *)
Definition in_order {A} (keyf : A → skey) (dir : Z) (a b : A) : Prop :=
  (if (dir =? 1)%Z then skey_leb (keyf a) (keyf b)
   else skey_leb (keyf b) (keyf a)) = true.

(** The documents a query for [p] is about. *)
Definition selected {D} (p : D → bool) (db : gmap ObjectId D) : nat :=
  length (find_docs p db).

(** Two stored cases and one stored message, for the worked instances. *)
Definition sampleCases : gmap ObjectId Case.t :=
  <["c2" := mkCase "client2" "assigned" (Some "admin1") (Some [entry "pA" "active"])]>
    {[ "c1" := mkCase "client1" "open" None (Some []) ]}.

Definition sampleMessages : gmap ObjectId Message.t :=
  {[ "m1" := mkMessage "client1" [mkRecipient (Some "u1") false None;
                                  mkRecipient (Some "u2") true (Some 60%Z)] ]}.

Definition sampleWorld : World := mkWorld sampleCases sampleMessages.


(** The count a grouping lists under key [k], 0 when the key is not listed. *)
Fixpoint count_in (k : string) (acc : list (string * nat)) : nat :=
  match acc with
  | [] => 0
  | (k', n) :: rest => if String.eqb k k' then n else count_in k rest
  end.

(** The stored cases whose [field] is [k]. *)
Definition cases_with (field : Case.t → string) (k : string)
    (db : gmap ObjectId Case.t) : nat :=
  length (List.filter (fun d => String.eqb (field d.2) k) (map_to_list db)).

(** The page a message listing computes: filter, order on [createdAt], page. *)
Definition page_of (filter : gmap string qval) (dir page limit : Z)
    (db : gmap ObjectId Message.t) : result (list (ObjectId * Message.t)) :=
  paginate page limit
    (sort_docs MessageRepository.byCreatedAt dir
       (find_docs (MessageRepository.matchesMessage filter) db)).

Definition oldest_first (l : list (ObjectId * Message.t)) : Prop :=
  Sorted (fun a b => (Message.createdAt a.2 ≤ Message.createdAt b.2)%Z) l.


(** The message with every entry of the user marked as read at [now]. *)
Definition markedAll (uid : ObjectId) (now : Time) (m : Message.t) : Message.t :=
  Message.set_recipients
    ((fun r => if isRecipient uid r then markRead now r else r)
       <$> Message.recipients m) m.

(** ** Tactics *)

Ltac run :=
  unfold mbind, mret, M_bind, M_ret, result_bind, result_ret, lift, throw,
    cases, messages, putCase, putMessage, putMessages, Date_now; simpl.

Ltac run_in H :=
  unfold mbind, mret, M_bind, M_ret, result_bind, result_ret, lift, throw,
    cases, messages, putCase, putMessage, putMessages, Date_now in H; simpl in H.

(** Lookups in a filter or update object written as a chain of inserts. *)
Ltac lookups :=
  repeat first
    [ rewrite lookup_insert_eq
    | rewrite lookup_insert_ne by discriminate
    | rewrite lookup_delete_eq
    | rewrite lookup_delete_ne by discriminate
    | rewrite lookup_empty ].

(** * Properties *)

(** ** Running computations *)

Lemma advance_0 (w : World) : advance 0 w = w.
Proof. by destruct w. Qed.

Lemma advance_advance (n m : nat) (w : World) :
  advance n (advance m w) = advance (n + m) w.
Proof. unfold advance; simpl. f_equal. lia. Qed.

Lemma Date_now_run (w : World) :
  Date_now w = (Ok (clock w (ticks w)), advance 1 w).
Proof. reflexivity. Qed.

Lemma bind_run {A B} (m : M A) (f : A → M B) (w w' : World) (a : A) :
  m w = (Ok a, w') → (m ≫= f) w = f a w'.
Proof. intros H. unfold mbind, M_bind. by rewrite H. Qed.

Lemma bind_inv {A B} (m : M A) (f : A → M B) (w w2 : World) (b : B) :
  (m ≫= f) w = (Ok b, w2) → ∃ a w1, m w = (Ok a, w1) ∧ f a w1 = (Ok b, w2).
Proof.
  unfold mbind, M_bind. destruct (m w) as [[a|e] w1]; [eauto|discriminate].
Qed.

Lemma findById_run (i : ObjectId) (w : World) :
  MessageRepository.findById i w = (Ok (messageDb w !! i), w).
Proof. reflexivity. Qed.

Lemma Case_findById_run (i : ObjectId) (lean : bool) (w : World) :
  CaseRepository.findById i lean w =
  (Ok ((if lean then fun c => c else Case.hydrate) <$> caseDb w !! i), w).
Proof. reflexivity. Qed.

Lemma clock_only_ret {A} (a : A) : clock_only (mret a).
Proof. intros w. exists 0%nat. by rewrite advance_0. Qed.

Lemma clock_only_lift {A} (r : result A) : clock_only (lift r).
Proof. intros w. exists 0%nat. by rewrite advance_0. Qed.

Lemma clock_only_throw {A} (e : error) : clock_only (@throw A e).
Proof. intros w. exists 0%nat. by rewrite advance_0. Qed.

Lemma clock_only_now : clock_only Date_now.
Proof. intros w. by exists 1%nat. Qed.

Lemma clock_only_bind {A B} (m : M A) (f : A → M B) :
  clock_only m → (∀ a, clock_only (f a)) → clock_only (m ≫= f).
Proof.
  intros Hm Hf w. unfold mbind, M_bind.
  destruct (Hm w) as [n Hn]. destruct (m w) as [[a|e] w1]; simpl in *; subst w1.
  - destruct (Hf a (advance n w)) as [k Hk]. exists (k + n)%nat.
    by rewrite Hk, advance_advance.
  - by exists n.
Qed.

Lemma clock_only_mapM {A B} (f : A → M B) (l : list A) :
  (∀ a, clock_only (f a)) → clock_only (mapM f l).
Proof.
  intros Hf. induction l as [|a l IH]; [apply clock_only_ret|].
  change (mapM f (a :: l)) with (f a ≫= fun y => mapM f l ≫= fun k => mret (y :: k)).
  auto using clock_only_bind, clock_only_ret.
Qed.

Section Raises.
Context {P : error → Prop}.

Lemma raises_ok {A} (a : A) : raises_only P (Ok a).
Proof. intros e. discriminate. Qed.

Lemma raises_throw {A} (e : error) : P e → raises_only P (@Throw A e).
Proof. intros He e'. congruence. Qed.

Lemma raises_bind {A B} (r : result A) (f : A → result B) :
  raises_only P r → (∀ a, raises_only P (f a)) → raises_only P (r ≫= f).
Proof.
  intros Hr Hf e. destruct r as [a|e']; simpl.
  - apply Hf.
  - intros [= <-]. by apply Hr.
Qed.

Lemma raises_mapM {A B} (f : A → result B) (l : list A) :
  (∀ a, raises_only P (f a)) → raises_only P (mapM f l).
Proof.
  intros Hf. induction l as [|a l IH]; [apply raises_ok|].
  change (mapM f (a :: l)) with (f a ≫= fun y => mapM f l ≫= fun k => mret (y :: k)).
  apply raises_bind; [done|]. intros y.
  apply raises_bind; [done|]. intros k. apply raises_ok.
Qed.

Lemma throws_ret {A} (a : A) : throws_only P (mret a).
Proof. intros w. apply raises_ok. Qed.

Lemma throws_lift {A} (r : result A) : raises_only P r → throws_only P (lift r).
Proof. intros Hr w. exact Hr. Qed.

Lemma throws_bind {A B} (m : M A) (f : A → M B) :
  throws_only P m → (∀ a, throws_only P (f a)) → throws_only P (m ≫= f).
Proof.
  intros Hm Hf w e. unfold mbind, M_bind.
  specialize (Hm w). destruct (m w) as [[a|e'] w1]; simpl in *.
  - apply Hf.
  - intros [= <-]. by apply Hm.
Qed.
End Raises.

(** ** Arrays and query results *)

Lemma Array_some_total {A} (f : A → result bool) (g : A → bool) (l : list A) :
  (∀ x, f x = Ok (g x)) → Array_some f l = Ok (existsb g l).
Proof.
  intros Hf. induction l as [|x l IH]; simpl; [done|].
  rewrite Hf. simpl. destruct (g x); [done|exact IH].
Qed.

Lemma Array_find_updateFound (p : Recipient → bool) (f : Recipient → Recipient)
    (rs : list Recipient) :
  (∀ r, p (f r) = p r) →
  Array_find p (updateFound p f rs) = f <$> Array_find p rs.
Proof.
  intros Hp. induction rs as [|r rs IH]; [done|]. simpl.
  destruct (p r) eqn:Hr; simpl.
  - by rewrite Hp, Hr.
  - by rewrite Hr.
Qed.

Lemma Array_find_none {A} (p : A → bool) (l : list A) :
  Forall (fun x => p x = false) l → Array_find p l = None.
Proof. induction 1 as [|x l Hx _ IH]; simpl; [done|by rewrite Hx]. Qed.

Lemma find_docs_elem {D} (p : D → bool) (db : gmap ObjectId D) (i : ObjectId) (d : D) :
  (i, d) ∈ find_docs p db ↔ db !! i = Some d ∧ p d = true.
Proof.
  unfold find_docs. rewrite list_elem_of_In, filter_In, <- list_elem_of_In.
  by rewrite elem_of_map_to_list.
Qed.

Lemma insert_sorted_elem {A} (le : A → A → bool) (x y : A) (l : list A) :
  x ∈ insert_sorted le y l → x = y ∨ x ∈ l.
Proof.
  induction l as [|z l IH]; simpl.
  - rewrite list_elem_of_singleton. auto.
  - destruct (le y z); rewrite !elem_of_cons; [tauto|].
    intros [->|H]; [auto|]. destruct (IH H); auto.
Qed.

Lemma sort_docs_elem {A} (keyf : A → skey) (dir : Z) (l : list A) (x : A) :
  x ∈ sort_docs keyf dir l → x ∈ l.
Proof.
  unfold sort_docs. induction l as [|y l IH]; simpl; [done|].
  intros H. apply insert_sorted_elem in H as [->|H]; rewrite elem_of_cons; auto.
Qed.

Lemma paginate_elem {A} (page limit : Z) (l r : list A) (x : A) :
  paginate page limit l = Ok r → x ∈ r → x ∈ l.
Proof.
  unfold paginate. destruct (_ <? 0)%Z; [discriminate|]. intros [= <-].
  destruct (limit =? 0)%Z; intros H.
  - by apply subseteq_drop in H.
  - by apply subseteq_take, subseteq_drop in H.
Qed.

Lemma filter_length_le {A} (p q : A → bool) (l : list A) :
  (∀ x, p x = true → q x = true) →
  (length (List.filter p l) ≤ length (List.filter q l))%nat.
Proof.
  intros Hpq. induction l as [|x l IH]; simpl; [done|].
  destruct (p x) eqn:Hp.
  - rewrite (Hpq x Hp). simpl. lia.
  - destruct (q x); simpl; lia.
Qed.

(** ** The authorization guard *)

Section Guard.
Variables (c : Case.t) (u : User).

Lemma role_is (r : string) : role u = r → String.eqb (role u) r = true.
Proof. intros ->. apply String.eqb_refl. Qed.

Lemma role_is_not (r : string) : role u ≠ r → String.eqb (role u) r = false.
Proof. intros H. by apply String.eqb_neq. Qed.
End Guard.

Lemma guard_admin (c : Case.t) (u : User) :
  role u = "admin" →
  CaseService._checkCaseAccess c u = Ok true ∧
  MessageService._checkCaseAccess c u = Ok true.
Proof.
  intros Hr. unfold CaseService._checkCaseAccess, MessageService._checkCaseAccess.
  by rewrite (role_is u _ Hr).
Qed.

Lemma guard_client (c : Case.t) (u : User) :
  role u = "client" →
  CaseService._checkCaseAccess c u =
    (if String.eqb (Case.createdBy c) (id u) then Ok true else Throw Forbidden) ∧
  MessageService._checkCaseAccess c u =
    (if String.eqb (Case.createdBy c) (id u) then Ok true else Throw Forbidden).
Proof.
  intros Hr. unfold CaseService._checkCaseAccess, MessageService._checkCaseAccess.
  rewrite (role_is u _ Hr).
  rewrite !(role_is_not u) by (rewrite Hr; discriminate).
  by destruct (String.eqb (Case.createdBy c) (id u)).
Qed.

(** The guard for a panelist who carries a panelist id, on a case whose
    panelist list is present: both services let the panelist through when
    one and the same entry names that id and is active, and raise Forbidden
    otherwise. *)
Lemma guard_panelist (c : Case.t) (u : User) (pid : ObjectId)
    (aps : list AssignedPanelist) :
  role u = "panelist" → panelistId u = Some pid →
  Case.assignedPanelists c = Some aps →
  CaseService._checkCaseAccess c u =
    (if existsb (activeEntryOf pid) aps then Ok true else Throw Forbidden) ∧
  MessageService._checkCaseAccess c u =
    (if existsb (activeEntryOf pid) aps then Ok true else Throw Forbidden).
Proof.
  intros Hr Hp Ha.
  unfold CaseService._checkCaseAccess, MessageService._checkCaseAccess.
  rewrite (role_is u _ Hr), Ha.
  rewrite !(role_is_not u) by (rewrite Hr; discriminate).
  simpl. rewrite (Array_some_total _ (activeEntryOf pid)).
  - by destruct (existsb (activeEntryOf pid) aps).
  - intros ap. unfold CaseService.isActiveEntryOf. by rewrite Hp.
Qed.

(** C1, as stated, fails: a user whose role is none of the three is let
    through by both guards. *)
Lemma C1_unknown_role_not_denied :
  let guest := mkUser "u9" "guest" None in
  let c := mkCase "client1" "open" None (Some []) in
  role guest ≠ "admin" ∧ role guest ≠ "client" ∧ role guest ≠ "panelist" ∧
  CaseService._checkCaseAccess c guest = Ok true ∧
  MessageService._checkCaseAccess c guest = Ok true.
Proof. repeat split; done. Qed.

(** C1, amended: for every case and every user whose role is none of admin,
    client and panelist, no rule of the guard matches and both variants of
    [_checkCaseAccess] fall through to their final [return true]. *)
Theorem C1_unknown_role_falls_through (c : Case.t) (u : User) :
  role u ≠ "admin" → role u ≠ "client" → role u ≠ "panelist" →
  CaseService._checkCaseAccess c u = Ok true ∧
  MessageService._checkCaseAccess c u = Ok true.
Proof.
  intros Ha Hc Hp.
  unfold CaseService._checkCaseAccess, MessageService._checkCaseAccess.
  rewrite (role_is_not u _ Ha), (role_is_not u _ Hc), (role_is_not u _ Hp).
  done.
Qed.

Lemma C1_unknown_role_falls_through_witness :
  CaseService._checkCaseAccess (mkCase "client1" "open" None None)
    (mkUser "u9" "auditor" None) = Ok true ∧
  MessageService._checkCaseAccess (mkCase "client1" "open" None None)
    (mkUser "u9" "auditor" None) = Ok true.
Proof.
  apply (C1_unknown_role_falls_through
           (mkCase "client1" "open" None None) (mkUser "u9" "auditor" None));
    simpl; discriminate.
Defined.

(** C10, as stated, fails: on a case without panel entries a panelist user
    without [panelistId] gets the clean 403 from both guards. *)
Lemma C10_no_entries_clean_forbidden :
  let p := mkUser "u5" "panelist" None in
  let c := mkCase "client1" "open" None (Some []) in
  role p = "panelist" ∧ panelistId p = None ∧
  CaseService._checkCaseAccess c p = Throw Forbidden ∧
  MessageService._checkCaseAccess c p = Throw Forbidden.
Proof. repeat split; done. Qed.

(** C10, amended: for a user with role panelist and no [panelistId], neither
    guard ever grants access; the TypeError arises exactly when the case has
    at least one [assignedPanelists] entry (the callback dereferences
    [user.panelistId] on the first one), an empty list gives the clean 403,
    and a missing [assignedPanelists] field gives TypeError in CaseService
    but the clean 403 in MessageService, whose variant guards the read. *)
Theorem C10_panelist_without_id (c : Case.t) (u : User) :
  role u = "panelist" → panelistId u = None →
  CaseService._checkCaseAccess c u =
    match Case.assignedPanelists c with
    | Some [] => Throw Forbidden
    | Some (_ :: _) | None => Throw TypeError
    end ∧
  MessageService._checkCaseAccess c u =
    match Case.assignedPanelists c with
    | Some (_ :: _) => Throw TypeError
    | Some [] | None => Throw Forbidden
    end.
Proof.
  intros Hr Hp.
  unfold CaseService._checkCaseAccess, MessageService._checkCaseAccess.
  rewrite (role_is u _ Hr).
  rewrite !(role_is_not u) by (rewrite Hr; discriminate).
  destruct (Case.assignedPanelists c) as [[|ap aps]|]; simpl;
    unfold CaseService.isActiveEntryOf; rewrite ?Hp; done.
Qed.

Lemma C10_panelist_without_id_witness :
  let c := mkCase "client1" "panel_assigned" None (Some [entry "p1" "active"]) in
  let u := mkUser "u5" "panelist" None in
  CaseService._checkCaseAccess c u = Throw TypeError ∧
  MessageService._checkCaseAccess c u = Throw TypeError.
Proof.
  apply (C10_panelist_without_id
           (mkCase "client1" "panel_assigned" None (Some [entry "p1" "active"]))
           (mkUser "u5" "panelist" None)); reflexivity.
Defined.

(** ** Listing cases *)

Lemma listFilter_panelist (u : User) (pid : ObjectId) (st ty : option string) :
  role u = "panelist" → panelistId u = Some pid →
  CaseService.listFilter u st ty !! "assignedPanelists.panelist" = Some (QStr pid) ∧
  CaseService.listFilter u st ty !! "assignedPanelists.status" = Some (QStr "active").
Proof.
  intros Hr Hp. unfold CaseService.listFilter.
  rewrite (role_is u _ Hr), Hp.
  rewrite (role_is_not u "client") by (rewrite Hr; discriminate).
  destruct st as [s|], ty as [t|];
    repeat match goal with |- context [negb ?b] => destruct b; simpl end;
    lookups; done.
Qed.

(** What [listCases] does guarantee to a panelist: every case handed out is
    a stored case with some entry naming the panelist and some entry that is
    active (C3 shows these need not be one and the same entry). *)
Lemma listCases_panelist_listed (w w' : World) (u : User) (pid : ObjectId)
    (page limit : Z) (st ty : option string) (sortBy sortOrder : string)
    (cs : list (ObjectId * Case.t)) (pg : Pagination) (i : ObjectId) (c : Case.t) :
  role u = "panelist" → panelistId u = Some pid →
  CaseService.listCases u page limit st ty sortBy sortOrder w = (Ok (cs, pg), w') →
  (i, c) ∈ cs →
  caseDb w !! i = Some c ∧
  existsb (fun ap => String.eqb (panelist ap) pid) (Case.panelists c) = true ∧
  existsb (fun ap => String.eqb (status ap) "active") (Case.panelists c) = true.
Proof.
  intros Hr Hp H Hin. unfold CaseService.listCases in H.
  apply bind_inv in H as (cs' & w1 & Hcs & H).
  apply bind_inv in H as (n & w2 & _ & H).
  injection H as <- _ _.
  unfold CaseRepository.findCasesWithPopulation in Hcs. run_in Hcs.
  destruct (paginate _ _ _) as [r|] eqn:Hpage; [|discriminate].
  injection Hcs as <- _.
  apply (paginate_elem _ _ _ _ _ Hpage), sort_docs_elem, find_docs_elem in Hin
    as [Hc Hm].
  split; [done|].
  destruct (listFilter_panelist u pid st ty Hr Hp) as [Hf1 Hf2].
  unfold CaseRepository.matchesCase, matches, CaseRepository.paths in Hm.
  simpl in Hm. rewrite Hf1, Hf2 in Hm.
  apply andb_true_iff in Hm as [_ Hm].
  apply andb_true_iff in Hm as [H1 Hm].
  apply andb_true_iff in Hm as [H2 _].
  done.
Qed.

(** C3 at its failing input: panelist pA was removed from the case, panelist
    pB is active on it.  The user of pA is refused by the guard, yet
    [listCases] hands the case out: the two dotted paths of the filter are
    met by two different entries. *)
Theorem C3_listCases_removed_panelist :
  let c := mkCase "client1" "panel_assigned" (Some "admin1")
             (Some [entry "pA" "removed"; entry "pB" "active"]) in
  let w := mkWorld {[ "c1" := c ]} ∅ in
  let u := mkUser "u5" "panelist" (Some "pA") in
  existsb (fun ap => String.eqb (panelist ap) "pA" && String.eqb (status ap) "active")
    (Case.panelists c) = false ∧
  CaseService._checkCaseAccess c u = Throw Forbidden ∧
    (CaseService.listCases u 1 10 None None "createdAt" "desc" w).1 =
    Ok ([("c1", c)], pagination 1 1 10) ∧
  (CaseRepository.findByPanelist "pA" 1 10 w).1 = Ok [("c1", c)].
Proof. repeat split. Qed.

(** ** Updating cases *)

Lemma clock_only_castAt {A} (cast : jsval → M A) (v : option jsval) :
  (∀ x, clock_only (cast x)) → clock_only (castAt cast v).
Proof.
  intros Hc. destruct v; simpl; auto using clock_only_bind, clock_only_ret.
Qed.

Lemma clock_only_castAssignedPanelists (v : jsval) :
  clock_only (castAssignedPanelists v).
Proof.
  destruct v as [| | | |vs|]; simpl; try apply clock_only_throw.
  apply clock_only_mapM. intros [| | | | |fs]; simpl; try apply clock_only_throw.
  repeat (apply clock_only_bind; [|intros ?]);
    repeat match goal with |- clock_only (match ?o with _ => _ end) => destruct o end;
    auto using clock_only_lift, clock_only_ret, clock_only_now.
Qed.

Lemma clock_only_castUpdate (u : gmap string jsval) : clock_only (castUpdate u).
Proof.
  unfold castUpdate.
  repeat (apply clock_only_bind;
          [apply clock_only_castAt; intros ?;
           auto using clock_only_lift, clock_only_castAssignedPanelists
          |intros ?]).
  apply clock_only_ret.
Qed.

Lemma castAt_absent {A} (cast : jsval → M A) (w w' : World) (a : option A) :
  castAt cast None w = (Ok a, w') → a = None.
Proof. simpl. unfold mret, M_ret. congruence. Qed.


Lemma strip_step_lookup (d : gmap string jsval) (k f : string) :
  (if truthy_at d k then delete k d else d) !! f =
  if decide (k = f) then (if truthy_at d f then None else d !! f) else d !! f.
Proof.
  destruct (decide (k = f)) as [->|Hne].
  - destruct (truthy_at d f); [apply lookup_delete_eq|done].
  - destruct (truthy_at d k); [by apply lookup_delete_ne|done].
Qed.



(** Keys outside the restricted set pass through the strip. *)
Lemma stripRestricted_other (d : gmap string jsval) (k : string) :
  k ∉ CaseService.restrictedFields →
  CaseService.stripRestricted d !! k = d !! k.
Proof.
  unfold CaseService.restrictedFields, CaseService.stripRestricted.
  rewrite !not_elem_of_cons. simpl. intros (? & ? & ? & ? & _).
  rewrite !strip_step_lookup. by repeat case_decide.
Qed.


(** C5 at its failing input: the owning client sends [assignedTo: null]
    along with a new title.  [null] is falsy, the key is not removed from
    the update, and the case loses its caseworker. *)
Theorem C5_updateCase_null_assignedTo :
  let c := mkCase "client1" "assigned" (Some "admin1") (Some []) in
  let w := mkWorld {[ "c1" := c ]} ∅ in
  let owner := mkUser "client1" "client" None in
  let patch : gmap string jsval :=
    <["assignedTo" := JNull]> (<["title" := JStr "Wall, north side"]> ∅) in
  let r := CaseService.updateCase "c1" patch owner w in
  role owner ≠ "admin" ∧
  CaseService._checkCaseAccess c owner = Ok true ∧
  Case.assignedTo c = Some "admin1" ∧
  CaseService.stripRestricted patch = patch ∧
  fmap (M:=option) Case.assignedTo <$> r.1 = Ok (Some None) ∧
  fmap (M:=option) Case.title <$> r.1 = Ok (Some "Wall, north side") ∧
  Case.assignedTo <$> caseDb r.2 !! "c1" = Some None.
Proof. repeat split. discriminate. Qed.

(** The scenario of the specification: a truthy restricted value is dropped
    for the owning client and applied for an admin. *)
Example updateCase_status_closed :
  let c := mkCase "client1" "panel_assigned" (Some "admin1") (Some []) in
  let w := mkWorld {[ "c1" := c ]} ∅ in
  let patch : gmap string jsval := {[ "status" := JStr "closed" ]} in
  fmap (M:=option) Case.status <$>
    (CaseService.updateCase "c1" patch (mkUser "client1" "client" None) w).1
    = Ok (Some "panel_assigned") ∧
  fmap (M:=option) Case.status <$>
    (CaseService.updateCase "c1" patch (mkUser "admin1" "admin" None) w).1
    = Ok (Some "closed").
Proof. split; vm_compute; reflexivity. Qed.

(** ** Assigning panelists *)

Lemma mapM_newPanelist (assignedBy : ObjectId) (ids : list ObjectId) (w : World) :
  mapM (CaseService.newPanelist assignedBy) ids w =
  (Ok (imap (activeEntry assignedBy w) ids), advance (length ids) w).
Proof.
  revert w. induction ids as [|p ids IH]; intros w.
  - simpl. by rewrite advance_0.
  - change (mapM (CaseService.newPanelist assignedBy) (p :: ids))
      with (CaseService.newPanelist assignedBy p ≫= fun y =>
            mapM (CaseService.newPanelist assignedBy) ids ≫= fun k =>
            mret (y :: k)).
    rewrite (bind_run _ _ w (advance 1 w) (activeEntry assignedBy w 0 p))
      by reflexivity.
    rewrite (bind_run _ _ _ _ _ (IH (advance 1 w))).
    rewrite advance_advance. unfold mret, M_ret. simpl. do 2 f_equal.
    + f_equal. apply imap_ext. intros k q _.
      unfold activeEntry. simpl. do 2 f_equal. lia.
    + f_equal. lia.
Qed.

(** C8: on an existing case, [assignPanelists] appends one entry with status
    active per supplied id, in order and without looking at the entries
    already there, so the list grows by exactly the number of ids; it sets
    the status to panel_assigned and [panelAssignedAt] to the clock reading
    taken after the entries were built, and writes the case back.  When the
    case does not exist it raises NotFound and changes nothing. *)
Theorem C8_assignPanelists (w : World) (caseId : ObjectId)
    (panelistIds : list ObjectId) (assignedBy : ObjectId) :
  match caseDb w !! caseId with
  | None =>
      CaseService.assignPanelists caseId panelistIds assignedBy w = (Throw NotFound, w)
  | Some c =>
      ∃ c' w',
        CaseService.assignPanelists caseId panelistIds assignedBy w = (Ok c', w') ∧
        caseDb w' !! caseId = Some c' ∧
        Case.panelists c' =
          (Case.panelists c ++ imap (activeEntry assignedBy w) panelistIds)%list ∧
        length (Case.panelists c') =
          (length (Case.panelists c) + length panelistIds)%nat ∧
        Case.status c' = "panel_assigned" ∧
        Case.panelAssignedAt c' = Some (clock w (length panelistIds + ticks w))
  end.
Proof.
  unfold CaseService.assignPanelists, CaseRepository.findById.
  destruct (caseDb w !! caseId) as [c|] eqn:Hc.
  - eexists _, _. split.
    + erewrite bind_run; last by (run; rewrite Hc).
      simpl. erewrite bind_run; last by apply mapM_newPanelist.
      erewrite bind_run; last by apply Date_now_run.
      unfold CaseRepository.save.
      erewrite bind_run; last by apply Date_now_run.
      run. reflexivity.
    + simpl. rewrite lookup_insert_eq. repeat split.
      unfold Case.panelists; simpl. by rewrite length_app, length_imap.
  - erewrite bind_run; last by (run; rewrite Hc). done.
Qed.

(** The scenario of the specification: two ids on a case in status assigned. *)
Example assignPanelists_two :
  let w := {| clock := fun k => (100 + Z.of_nat k)%Z; ticks := 0;
              caseDb := {[ "c1" := mkCase "client1" "assigned" (Some "admin1") None ]};
              messageDb := ∅ |} in
  ∃ c' w', CaseService.assignPanelists "c1" ["pA"; "pB"] "admin1" w = (Ok c', w') ∧
    Case.status c' = "panel_assigned" ∧
    Case.assignedPanelists c' =
      Some [ {| panelist := "pA"; assignedAt := 100; assignedBy := "admin1";
                status := "active" |};
             {| panelist := "pB"; assignedAt := 101; assignedBy := "admin1";
                status := "active" |} ] ∧
    Case.panelAssignedAt c' = Some 102%Z ∧ Case.updatedAt c' = 103%Z.
Proof. eexists _, _. split; [vm_compute; reflexivity | done]. Qed.

(** ** Creating messages *)

Lemma requiredString_raises P (o : option string) :
  P ValidationError → raises_only P (requiredString o).
Proof.
  intros HP. destruct o as [s|]; simpl; [destruct (String.eqb s "")|];
    auto using raises_ok, raises_throw.
Qed.

Lemma enumString_raises P (e : list string) (s : string) :
  P ValidationError → raises_only P (enumString e s).
Proof.
  intros HP. unfold enumString. destruct (in_enum s e);
    auto using raises_ok, raises_throw.
Qed.

Lemma maxlength_raises P (n : nat) (s : string) :
  P ValidationError → raises_only P (maxlength n s).
Proof.
  intros HP. unfold maxlength. destruct (_ <=? _)%nat;
    auto using raises_ok, raises_throw.
Qed.

Lemma validateRecipient_raises P (d : RecipientData) :
  P ValidationError → raises_only P (validateRecipient d).
Proof.
  intros HP. unfold validateRecipient.
  repeat (apply raises_bind; [|intros ?]);
    auto using raises_ok, requiredString_raises, enumString_raises.
Qed.

Lemma validateSender_raises P (o : option Sender) :
  P ValidationError → raises_only P (validateSender o).
Proof.
  intros HP. destruct o as [s|]; [|by apply raises_throw].
  unfold validateSender.
  repeat (apply raises_bind; [|intros ?]);
    auto using raises_ok, requiredString_raises, enumString_raises.
Qed.

(** [Message.create] fails with a validation error or not at all. *)
Lemma create_throws (d : MessageData) :
  throws_only (fun e => e = ValidationError) (MessageRepository.create d).
Proof.
  unfold MessageRepository.create.
  apply throws_bind; [destruct (md_createdAt d); by intros w e|intros created].
  apply throws_bind; [destruct (md_updatedAt d); by intros w e|intros updated].
  apply throws_bind; [|intros doc].
  - apply throws_lift.
    apply raises_bind; [by apply validateSender_raises|intros s].
    apply raises_bind;
      [apply raises_mapM; intros r; by apply validateRecipient_raises|intros rs].
    apply raises_bind; [|intros subj].
    { destruct (md_subject d); [|apply raises_ok].
      apply raises_bind; [by apply maxlength_raises|intros ?; apply raises_ok]. }
    apply raises_bind; [by apply requiredString_raises|intros body].
    apply raises_bind; [by apply maxlength_raises|intros body'].
    apply raises_bind; [by apply enumString_raises|intros ty].
    apply raises_bind; [by apply enumString_raises|intros pr].
    apply raises_ok.
  - by intros w e.
Qed.

(** The half of C2 that holds: [createMessage] raises NotFound exactly when
    the referenced case does not exist. *)
Lemma createMessage_NotFound_iff (w : World) (d : MessageData) (sender : User) :
  (MessageService.createMessage d sender w).1 = Throw NotFound ↔
  caseDb w !! md_case d = None.
Proof.
  unfold MessageService.createMessage.
  rewrite (bind_run _ _ _ _ _ (Case_findById_run _ _ w)).
  destruct (caseDb w !! md_case d) as [c|]; simpl; [|done].
  split; [|done]. intros H. by apply create_throws in H.
Qed.

(** C2 at its failing input: client2 is a client who did not create case c1
    and no panelist entry is involved.  Reading the thread is refused, but
    [createMessage] only looks the case up and stores the message. *)
Theorem C2_createMessage_without_access :
  let c := mkCase "client1" "open" None (Some []) in
  let w := mkWorld {[ "c1" := c ]} ∅ in
  let outsider := mkUser "client2" "client" None in
  let payload :=
    {| md_case := "c1"; md_sender := None;
       md_recipients := [ {| rd_recipientType := Some "party";
                             rd_userId := Some "client1"; rd_panelistId := None;
                             rd_name := Some "Owner"; rd_email := None;
                             rd_isRead := None; rd_readAt := None |} ];
       md_subject := None; md_content := Some "hello";
       md_messageType := None; md_priority := None; md_isDeleted := None;
       md_createdAt := None; md_updatedAt := None |} in
  let r := MessageService.createMessage payload outsider w in
  MessageService._checkCaseAccess c outsider = Throw Forbidden ∧
  (MessageService.getMessagesByCase "c1" outsider 1 20 w).1 = Throw Forbidden ∧
  (∃ i m, r.1 = Ok (i, m) ∧ messageDb r.2 !! i = Some m ∧
          Message.case m = "c1" ∧ s_userId (Message.sender m) = "client2" ∧
          Message.content m = "hello") ∧
  size (messageDb r.2) = 1%nat.
Proof.
  repeat split.
  eexists _, _. repeat split; vm_compute; reflexivity.
Qed.

(** ** Read marks *)

Lemma Message_markAsRead_run (i uid : ObjectId) (m : Message.t) (w : World) :
  MessageRepository.Message_markAsRead i m uid w = (Ok (marked uid m w), afterMark i uid m w).
Proof.
  unfold MessageRepository.Message_markAsRead, MessageRepository.save,
    afterMark, marked, readBy, needsMark.
  destruct (Array_find (isRecipient uid) (Message.recipients m)) as [r|];
    [destruct (isRead r)|]; run; reflexivity.
Qed.

Lemma markAsRead_found (i uid : ObjectId) (m : Message.t) (w : World) :
  messageDb w !! i = Some m →
  MessageRepository.markAsRead i uid w = (Ok (Some (marked uid m w)), afterMark i uid m w).
Proof.
  intros Hm. unfold MessageRepository.markAsRead.
  rewrite (bind_run _ _ _ _ _ (findById_run i w)), Hm.
  by rewrite (bind_run _ _ _ _ _ (Message_markAsRead_run i uid m w)).
Qed.

Lemma markAsRead_missing (i uid : ObjectId) (w : World) :
  messageDb w !! i = None →
  MessageRepository.markAsRead i uid w = (Ok None, w).
Proof.
  intros Hm. unfold MessageRepository.markAsRead.
  by rewrite (bind_run _ _ _ _ _ (findById_run i w)), Hm.
Qed.

Lemma markMessageAsRead_found (i uid : ObjectId) (m : Message.t) (w : World) :
  messageDb w !! i = Some m →
  MessageService.markMessageAsRead i uid w = (Ok (marked uid m w), afterMark i uid m w).
Proof.
  intros Hm. unfold MessageService.markMessageAsRead.
  by rewrite (bind_run _ _ _ _ _ (markAsRead_found i uid m w Hm)).
Qed.

Lemma markMessageAsRead_missing (i uid : ObjectId) (w : World) :
  messageDb w !! i = None →
  MessageService.markMessageAsRead i uid w = (Throw NotFound, w).
Proof.
  intros Hm. unfold MessageService.markMessageAsRead.
  by rewrite (bind_run _ _ _ _ _ (markAsRead_missing i uid w Hm)).
Qed.

Lemma needsMark_marked (uid : ObjectId) (m : Message.t) (w : World) :
  needsMark uid (marked uid m w) = false.
Proof.
  unfold marked, readBy.
  destruct (needsMark uid m) eqn:Hn; unfold needsMark in *; simpl.
  - rewrite Array_find_updateFound by done.
    by destruct (Array_find (isRecipient uid) (Message.recipients m)).
  - exact Hn.
Qed.

Lemma mark_idle (i uid : ObjectId) (m : Message.t) (w : World) :
  needsMark uid m = false →
  marked uid m w = Message.set_updatedAt (clock w (ticks w)) m ∧
  afterMark i uid m w =
    {| clock := clock w; ticks := S (ticks w); caseDb := caseDb w;
       messageDb := <[i := Message.set_updatedAt (clock w (ticks w)) m]> (messageDb w) |}.
Proof. intros H. unfold afterMark, marked, readBy. by rewrite H. Qed.

(** C6, as stated, fails: the second call stores a message that differs from
    the one the first call stored. *)
Lemma C6_second_call_changes_the_message :
  let w := mkWorld ∅ {[ "m1" := mkMessage "u0" [mkRecipient (Some "u1") false None] ]} in
  let once := MessageService.markMessageAsRead "m1" "u1" w in
  let twice := MessageService.markMessageAsRead "m1" "u1" once.2 in
  once.1 = Ok (Message.set_updatedAt 101
                 (mkMessage "u0" [mkRecipient (Some "u1") true (Some 100%Z)])) ∧
  twice.1 = Ok (Message.set_updatedAt 102
                  (mkMessage "u0" [mkRecipient (Some "u1") true (Some 100%Z)])) ∧
  messageDb twice.2 ≠ messageDb once.2.
Proof.
  repeat split.
  intros H. apply (f_equal (fun db => Message.updatedAt <$> db !! "m1")) in H.
  vm_compute in H. discriminate.
Qed.

(** C6, amended: [markAsRead] is idempotent on everything but the
    [updatedAt] stamp.  After a successful call, a second call for the same
    message and user raises no error and returns and stores the message the
    first call produced with [updatedAt] set to the clock reading of the
    second call; every other field, the [isRead] / [readAt] of every
    recipient included, stays as the first call left it, and so do all other
    messages and all cases. *)
Theorem C6_markAsRead_twice (w w1 : World) (i uid : ObjectId) (m1 : Message.t) :
  MessageService.markMessageAsRead i uid w = (Ok m1, w1) →
  MessageService.markMessageAsRead i uid w1 =
    (Ok (Message.set_updatedAt (clock w1 (ticks w1)) m1),
     {| clock := clock w1; ticks := S (ticks w1); caseDb := caseDb w1;
        messageDb := <[i := Message.set_updatedAt (clock w1 (ticks w1)) m1]>
                       (messageDb w1) |}).
Proof.
  intros H1.
  destruct (messageDb w !! i) as [m|] eqn:Hm.
  - rewrite (markMessageAsRead_found _ _ _ _ Hm) in H1.
    injection H1 as <- <-.
    rewrite (markMessageAsRead_found i uid (marked uid m w))
      by (simpl; apply lookup_insert_eq).
    destruct (mark_idle i uid (marked uid m w) (afterMark i uid m w)
                (needsMark_marked uid m w)) as [-> ->].
    reflexivity.
  - by rewrite (markMessageAsRead_missing _ _ _ Hm) in H1.
Qed.

Lemma C6_markAsRead_twice_witness :
  let w := mkWorld ∅ {[ "m1" := mkMessage "u0" [mkRecipient (Some "u1") false None] ]} in
  let m1 := Message.set_updatedAt 101
              (mkMessage "u0" [mkRecipient (Some "u1") true (Some 100%Z)]) in
  let w1 := {| clock := clock w; ticks := 2; caseDb := ∅;
               messageDb := <["m1" := m1]> (messageDb w) |} in
  MessageService.markMessageAsRead "m1" "u1" w1 =
    (Ok (Message.set_updatedAt 102 m1),
     {| clock := clock w; ticks := 3; caseDb := ∅;
        messageDb := <["m1" := Message.set_updatedAt 102 m1]> (messageDb w1) |}).
Proof.
  intros w m1 w1.
  apply (C6_markAsRead_twice w w1 "m1" "u1" m1).
  reflexivity.
Defined.

(** C7, as stated, fails: on a message that has no entry for the user the
    call succeeds, but what it returns and stores is not the message as it
    was. *)
Lemma C7_no_entry_not_unchanged :
  let m := mkMessage "u0" [mkRecipient (Some "u2") false None] in
  let w := mkWorld ∅ {[ "m1" := m ]} in
  let r := MessageService.markMessageAsRead "m1" "u1" w in
  messageDb w !! "m1" = Some m ∧
  Forall (fun e => isRecipient "u1" e = false) (Message.recipients m) ∧
  r.1 = Ok (Message.set_updatedAt 100 m) ∧
  r.1 ≠ Ok m ∧
  messageDb r.2 !! "m1" ≠ Some m.
Proof.
  repeat split.
  - repeat constructor.
  - vm_compute. discriminate.
  - vm_compute. discriminate.
Qed.

(** C7, amended: [markMessageAsRead] raises NotFound if and only if no
    message with the given id exists, and then changes nothing.  If the
    message exists but has no recipient entry for the user, the call succeeds
    and returns and stores the message with its recipients and every other
    field as they were, except [updatedAt], which [save()] stamps with the
    clock reading of the call. *)
Theorem C7_markMessageAsRead_NotFound (w : World) (i uid : ObjectId) :
  (messageDb w !! i = None ↔
     (MessageService.markMessageAsRead i uid w).1 = Throw NotFound) ∧
  (messageDb w !! i = None →
     MessageService.markMessageAsRead i uid w = (Throw NotFound, w)) ∧
  (∀ m, messageDb w !! i = Some m →
     Forall (fun e => isRecipient uid e = false) (Message.recipients m) →
     MessageService.markMessageAsRead i uid w =
       (Ok (Message.set_updatedAt (clock w (ticks w)) m),
        {| clock := clock w; ticks := S (ticks w); caseDb := caseDb w;
           messageDb := <[i := Message.set_updatedAt (clock w (ticks w)) m]>
                          (messageDb w) |})).
Proof.
  split; [|split].
  - destruct (messageDb w !! i) as [m|] eqn:Hm.
    + rewrite (markMessageAsRead_found _ _ _ _ Hm). simpl. split; discriminate.
    + by rewrite (markMessageAsRead_missing _ _ _ Hm).
  - apply markMessageAsRead_missing.
  - intros m Hm Hno. rewrite (markMessageAsRead_found _ _ _ _ Hm).
    destruct (mark_idle i uid m w) as [-> ->]; [|done].
    unfold needsMark. by rewrite Array_find_none.
Qed.

Lemma C7_markMessageAsRead_NotFound_witness :
  let m := mkMessage "u0" [mkRecipient (Some "u2") false None] in
  let w := mkWorld ∅ {[ "m1" := m ]} in
  MessageService.markMessageAsRead "m9" "u1" w = (Throw NotFound, w) ∧
  MessageService.markMessageAsRead "m1" "u1" w =
    (Ok (Message.set_updatedAt 100 m),
     {| clock := clock w; ticks := 1; caseDb := ∅;
        messageDb := <["m1" := Message.set_updatedAt 100 m]> (messageDb w) |}).
Proof.
  intros m w. split.
  - apply (proj1 (proj2 (C7_markMessageAsRead_NotFound w "m9" "u1"))).
    reflexivity.
  - apply (proj2 (proj2 (C7_markMessageAsRead_NotFound w "m1" "u1")) m).
    + reflexivity.
    + repeat constructor.
Defined.

(** ** The recipient list after creation *)

Lemma entryFrame_refl (uid : ObjectId) (r : Recipient) : entryFrame uid r r.
Proof. by repeat split. Qed.

Lemma entryFrame_markRead (uid : ObjectId) (now : Time) (r : Recipient) :
  isRecipient uid r = true → entryFrame uid r (markRead now r).
Proof. intros H. repeat split. intros H'. congruence. Qed.

Lemma recipientsFrame_refl (uid : ObjectId) (rs : list Recipient) :
  Forall2 (entryFrame uid) rs rs.
Proof. induction rs; constructor; auto using entryFrame_refl. Qed.

Lemma recipientsFrame_updateFound (uid : ObjectId) (now : Time) (rs : list Recipient) :
  Forall2 (entryFrame uid) rs (updateFound (isRecipient uid) (markRead now) rs).
Proof.
  induction rs as [|r rs IH]; simpl; [constructor|].
  destruct (isRecipient uid r) eqn:Hr; constructor;
    auto using entryFrame_refl, entryFrame_markRead, recipientsFrame_refl.
Qed.

Lemma recipientsFrame_markAll (uid : ObjectId) (now : Time) (rs : list Recipient) :
  Forall2 (entryFrame uid) rs
    ((fun r => if isRecipient uid r then markRead now r else r) <$> rs).
Proof.
  induction rs as [|r rs IH]; simpl; constructor; [|done].
  destruct (isRecipient uid r) eqn:Hr;
    auto using entryFrame_refl, entryFrame_markRead.
Qed.

Lemma storeFrame_refl (uid : ObjectId) (db : gmap ObjectId Message.t) :
  storeFrame uid db db.
Proof. intros j. destruct (db !! j); auto using recipientsFrame_refl. Qed.

Lemma storeFrame_insert (uid i : ObjectId) (m m' : Message.t)
    (db : gmap ObjectId Message.t) :
  db !! i = Some m →
  Forall2 (entryFrame uid) (Message.recipients m) (Message.recipients m') →
  storeFrame uid db (<[i := m']> db).
Proof.
  intros Hm Hf j. destruct (decide (i = j)) as [<-|Hne].
  - by rewrite Hm, lookup_insert_eq.
  - rewrite lookup_insert_ne by done.
    destruct (db !! j); auto using recipientsFrame_refl.
Qed.

Lemma markMessageAsRead_frame (w : World) (i uid : ObjectId) :
  storeFrame uid (messageDb w) (messageDb (MessageService.markMessageAsRead i uid w).2).
Proof.
  destruct (messageDb w !! i) as [m|] eqn:Hm.
  - rewrite (markMessageAsRead_found _ _ _ _ Hm). simpl.
    apply (storeFrame_insert _ _ m); [done|].
    unfold marked, readBy. simpl.
    destruct (needsMark uid m); simpl;
      auto using recipientsFrame_refl, recipientsFrame_updateFound.
  - rewrite (markMessageAsRead_missing _ _ _ Hm). apply storeFrame_refl.
Qed.

Lemma bulkMarkAsRead_frame (w : World) (ids : list ObjectId) (uid : ObjectId) :
  storeFrame uid (messageDb w) (messageDb (MessageService.bulkMarkAsRead ids uid w).2).
Proof.
  unfold MessageService.bulkMarkAsRead, MessageRepository.bulkMarkAsRead. run.
  intros j. rewrite map_lookup_imap.
  destruct (messageDb w !! j) as [m|]; simpl; [|done].
  destruct (MessageRepository.bulkSelected ids uid j m); simpl;
    auto using recipientsFrame_refl, recipientsFrame_markAll.
Qed.

Lemma deleteMessage_recipients (w : World) (i : ObjectId) (user : User) (j : ObjectId) :
  Message.recipients <$> messageDb (MessageService.deleteMessage i user w).2 !! j =
  Message.recipients <$> messageDb w !! j.
Proof.
  unfold MessageService.deleteMessage.
  rewrite (bind_run _ _ _ _ _ (findById_run i w)).
  destruct (messageDb w !! i) as [m|] eqn:Hm; [|done].
  destruct (_ && _); [done|].
  unfold MessageRepository.deleteById. run. rewrite Hm. simpl.
  destruct (decide (i = j)) as [<-|Hne].
  - by rewrite lookup_insert_eq, Hm.
  - by rewrite lookup_insert_ne.
Qed.

(** C9: the operations on a message after its creation keep the recipient
    list as it is: marking as read and bulk marking, carried out for user
    [uid], keep every message and every entry in place and change at most
    [isRead] / [readAt] of entries whose [userId] is [uid], every other
    recipient's entry staying equal; soft deletion changes no recipient list
    at all. *)
Theorem C9_recipients_fixed (w : World) (uid : ObjectId) :
  (∀ i, storeFrame uid (messageDb w)
          (messageDb (MessageService.markMessageAsRead i uid w).2)) ∧
  (∀ ids, storeFrame uid (messageDb w)
            (messageDb (MessageService.bulkMarkAsRead ids uid w).2)) ∧
  (∀ i user j,
     Message.recipients <$> messageDb (MessageService.deleteMessage i user w).2 !! j =
     Message.recipients <$> messageDb w !! j).
Proof.
  split; [|split].
  - intros i. apply markMessageAsRead_frame.
  - intros ids. apply bulkMarkAsRead_frame.
  - intros i user j. apply deleteMessage_recipients.
Qed.

(** Three recipients, one of them marks the message as read. *)
Example one_of_three_reads :
  let rs := [mkRecipient (Some "u1") false None; mkRecipient (Some "u2") false None;
             mkRecipient (Some "u3") false None] in
  let w := mkWorld ∅ {[ "m1" := mkMessage "u0" rs ]} in
  Message.recipients <$> messageDb (MessageService.markMessageAsRead "m1" "u2" w).2 !! "m1" =
  Some [mkRecipient (Some "u1") false None; mkRecipient (Some "u2") true (Some 100%Z);
        mkRecipient (Some "u3") false None].
Proof. vm_compute. reflexivity. Qed.

(** ** Unread counts *)

(** What the query of [getUnreadCount] and [findUnreadByUser] asks of a
    message: some entry is the user's, some entry is unread. *)
Lemma unreadFilter_holds (uid : ObjectId) (m : Message.t) :
  MessageRepository.matchesMessage (MessageRepository.unreadFilter uid) m =
  existsb (isRecipient uid) (Message.recipients m)
  && existsb (fun r => Bool.eqb (isRead r) false) (Message.recipients m)
  && Bool.eqb (Message.isDeleted m) false.
Proof.
  unfold MessageRepository.matchesMessage, matches, MessageRepository.unreadFilter.
  simpl. lookups. unfold MessageRepository.holds. simpl.
  by rewrite andb_true_r, andb_assoc.
Qed.

Lemma ownUnread_matches (uid : ObjectId) (m : Message.t) :
  ownUnread uid m = true →
  MessageRepository.matchesMessage (MessageRepository.unreadFilter uid) m = true.
Proof.
  rewrite unreadFilter_holds. unfold ownUnread.
  rewrite !andb_true_iff, !existsb_exists.
  intros [Hd (r & Hin & Hr)]. apply andb_true_iff in Hr as [Hu Hread].
  repeat split.
  - by exists r.
  - exists r. split; [done|]. by destruct (isRead r).
  - by destruct (Message.isDeleted m).
Qed.

(** [getUnreadCount] never fails and never counts fewer messages than the
    specification's reading; C4 shows it can count more. *)
Lemma getUnreadCount_at_least (w : World) (uid : ObjectId) :
  ∃ n, MessageService.getUnreadCount uid w = (Ok n, w) ∧
       (spec_unreadCount uid (messageDb w) ≤ n)%nat.
Proof.
  eexists. split; [reflexivity|].
  unfold spec_unreadCount, find_docs. apply filter_length_le.
  intros [i m]. apply ownUnread_matches.
Qed.

(** C4 at its failing input: two recipients, both unread; the first marks the
    message as read, the second does not.  The first user's own entry is read
    and no message is unread for them in the specification's sense, yet
    [getUnreadCount] answers 1 and [getUnreadMessages] still lists the
    message. *)
Theorem C4_unread_count_sees_other_recipients :
  let m := mkMessage "u0" [mkRecipient (Some "u1") false None;
                           mkRecipient (Some "u2") false None] in
  let w := mkWorld ∅ {[ "m1" := m ]} in
  let w1 := (MessageService.markMessageAsRead "m1" "u1" w).2 in
  Message.recipients <$> messageDb w1 !! "m1" =
    Some [mkRecipient (Some "u1") true (Some 100%Z); mkRecipient (Some "u2") false None] ∧
  spec_unreadCount "u1" (messageDb w1) = 0%nat ∧
  (MessageService.getUnreadCount "u1" w1).1 = Ok 1%nat ∧
    (MessageService.getUnreadMessages "u1" 1 20 w1).1 =
    Ok ([("m1", Message.set_updatedAt 101
                  (mkMessage "u0" [mkRecipient (Some "u1") true (Some 100%Z);
                                   mkRecipient (Some "u2") false None]))],
        1%nat, pagination 1 1 20).
Proof. repeat split. Qed.

(** * Further properties *)

(** ** Sorting and paging *)

Lemma skey_leb_total (a b : skey) : skey_leb a b = true ∨ skey_leb b a = true.
Proof.
  destruct a as [|x|x], b as [|y|y]; simpl; auto.
  - destruct (Z.leb_spec x y); [auto|]. right. apply Z.leb_le. lia.
  - apply String.leb_total.
Qed.

Lemma in_order_total {A} (keyf : A → skey) (dir : Z) (a b : A) :
  in_order keyf dir a b ∨ in_order keyf dir b a.
Proof. unfold in_order. destruct (dir =? 1)%Z; apply skey_leb_total. Qed.

Lemma insert_sorted_HdRel {A} (R : relation A) (le : A → A → bool) (a x : A)
    (l : list A) :
  R a x → HdRel R a l → HdRel R a (insert_sorted le x l).
Proof.
  intros Hax Hl. destruct l as [|y l]; simpl; [by constructor|].
  destruct (le x y); constructor; [done|]. by inversion Hl.
Qed.

Lemma insert_sorted_Sorted {A} (R : relation A) (le : A → A → bool) (x : A)
    (l : list A) :
  (∀ a b, le a b = true → R a b) →
  (∀ a b, le a b = false → R b a) →
  Sorted R l → Sorted R (insert_sorted le x l).
Proof.
  intros Ht Hf. induction 1 as [|y l Hl IH Hy]; simpl.
  - repeat constructor.
  - destruct (le x y) eqn:E.
    + repeat constructor; auto.
    + constructor; [done|]. apply insert_sorted_HdRel; auto.
Qed.

Lemma sort_docs_Sorted {A} (keyf : A → skey) (dir : Z) (l : list A) :
  Sorted (in_order keyf dir) (sort_docs keyf dir l).
Proof.
  unfold sort_docs. induction l as [|x l IH]; simpl; [constructor|].
  apply insert_sorted_Sorted; [done| |done].
  intros a b E. destruct (in_order_total keyf dir a b) as [H|H]; [|done].
  unfold in_order in H. congruence.
Qed.

Lemma Sorted_drop {A} (R : relation A) (n : nat) (l : list A) :
  Sorted R l → Sorted R (drop n l).
Proof.
  revert l. induction n as [|n IH]; intros l Hl; [by rewrite drop_0|].
  destruct l as [|x l]; simpl; [constructor|]. apply IH. by inversion Hl.
Qed.

Lemma Sorted_take {A} (R : relation A) (n : nat) (l : list A) :
  Sorted R l → Sorted R (take n l).
Proof.
  revert l. induction n as [|n IH]; intros l Hl; [constructor|].
  destruct l as [|x l]; simpl; [constructor|].
  inversion Hl as [|? ? Hs Hh]; subst. constructor; [by apply IH|].
  destruct l as [|y l], n; simpl; constructor. by inversion Hh.
Qed.

Lemma paginate_Sorted {A} (R : relation A) (page limit : Z) (l r : list A) :
  paginate page limit l = Ok r → Sorted R l → Sorted R r.
Proof.
  unfold paginate. destruct (_ <? 0)%Z; [discriminate|]. intros [= <-] Hl.
  destruct (limit =? 0)%Z; auto using Sorted_take, Sorted_drop.
Qed.

Lemma insert_sorted_length {A} (le : A → A → bool) (x : A) (l : list A) :
  length (insert_sorted le x l) = S (length l).
Proof.
  induction l as [|y l IH]; simpl; [done|]. destruct (le x y); simpl; lia.
Qed.

Lemma sort_docs_length {A} (keyf : A → skey) (dir : Z) (l : list A) :
  length (sort_docs keyf dir l) = length l.
Proof.
  unfold sort_docs. induction l as [|x l IH]; simpl; [done|].
  by rewrite insert_sorted_length, IH.
Qed.

Lemma paginate_length {A} (page limit : Z) (l r : list A) :
  paginate page limit l = Ok r →
  (length r ≤ length l)%nat ∧
  (limit ≠ 0%Z → (Z.of_nat (length r) ≤ Z.abs limit)%Z).
Proof.
  unfold paginate. destruct (_ <? 0)%Z; [discriminate|]. intros [= <-].
  destruct (Z.eqb_spec limit 0) as [->|Hne].
  - rewrite length_drop. split; [lia|done].
  - rewrite length_take, length_drop. split; [lia|]. intros _. lia.
Qed.

(** ** The guard, both copies *)

(** On a hydrated document the guard of CaseService and the guard of
    MessageService give the same answer for every user; they part only on a
    lean document that lacks [assignedPanelists]. *)
Theorem guards_agree_on_hydrated (c : Case.t) (u : User) :
  CaseService._checkCaseAccess (Case.hydrate c) u =
  MessageService._checkCaseAccess (Case.hydrate c) u.
Proof.
  unfold CaseService._checkCaseAccess, MessageService._checkCaseAccess. simpl.
  destruct (String.eqb (role u) "admin"); [done|].
  destruct (String.eqb (role u) "client"), (String.eqb (role u) "panelist"); done.
Qed.

Lemma guard_client_witness :
  CaseService._checkCaseAccess (mkCase "client1" "open" None None)
    (mkUser "client2" "client" None) = Throw Forbidden ∧
  MessageService._checkCaseAccess (mkCase "client1" "open" None None)
    (mkUser "client2" "client" None) = Throw Forbidden.
Proof.
  apply (guard_client (mkCase "client1" "open" None None)
           (mkUser "client2" "client" None)).
  reflexivity.
Defined.

Lemma guard_panelist_witness :
  CaseService._checkCaseAccess
    (mkCase "client1" "open" None (Some [entry "pA" "removed"; entry "pA" "active"]))
    (mkUser "u5" "panelist" (Some "pA")) = Ok true ∧
  MessageService._checkCaseAccess
    (mkCase "client1" "open" None (Some [entry "pA" "removed"; entry "pA" "active"]))
    (mkUser "u5" "panelist" (Some "pA")) = Ok true.
Proof.
  apply (guard_panelist
           (mkCase "client1" "open" None (Some [entry "pA" "removed"; entry "pA" "active"]))
           (mkUser "u5" "panelist" (Some "pA")) "pA"
           [entry "pA" "removed"; entry "pA" "active"]); reflexivity.
Defined.

(** ** Listing cases, in general *)

Lemma listCases_run (u : User) (page limit : Z) (st ty : option string)
    (sortBy sortOrder : string) (w : World) :
  CaseService.listCases u page limit st ty sortBy sortOrder w =
  (match paginate page limit
           (sort_docs (fun d => CaseRepository.sort_key sortBy d.2)
              (if String.eqb sortOrder "asc" then 1%Z else (-1)%Z)
              (find_docs (CaseRepository.matchesCase (CaseService.listFilter u st ty))
                 (caseDb w))) with
   | Ok cs => Ok (cs, pagination
                        (selected (CaseRepository.matchesCase
                                     (CaseService.listFilter u st ty)) (caseDb w))
                        page limit)
   | Throw e => Throw e
   end, w).
Proof.
  unfold CaseService.listCases, CaseRepository.findCasesWithPopulation,
    CaseRepository.countCases. run.
  by destruct (paginate _ _ _).
Qed.

Lemma listCases_inv (u : User) (page limit : Z) (st ty : option string)
    (sortBy sortOrder : string) (w w' : World)
    (cs : list (ObjectId * Case.t)) (pg : Pagination) :
  CaseService.listCases u page limit st ty sortBy sortOrder w = (Ok (cs, pg), w') →
  paginate page limit
    (sort_docs (fun d => CaseRepository.sort_key sortBy d.2)
       (if String.eqb sortOrder "asc" then 1%Z else (-1)%Z)
       (find_docs (CaseRepository.matchesCase (CaseService.listFilter u st ty))
          (caseDb w))) = Ok cs ∧
  pg = pagination (selected (CaseRepository.matchesCase
                               (CaseService.listFilter u st ty)) (caseDb w))
         page limit ∧
  w' = w.
Proof.
  rewrite listCases_run. destruct (paginate _ _ _); [|discriminate].
  by intros [= <- <- <-].
Qed.

Lemma listed_matches (u : User) (page limit : Z) (st ty : option string)
    (sortBy sortOrder : string) (w w' : World)
    (cs : list (ObjectId * Case.t)) (pg : Pagination) (i : ObjectId) (c : Case.t) :
  CaseService.listCases u page limit st ty sortBy sortOrder w = (Ok (cs, pg), w') →
  (i, c) ∈ cs →
  caseDb w !! i = Some c ∧
  CaseRepository.matchesCase (CaseService.listFilter u st ty) c = true.
Proof.
  intros H Hin. apply listCases_inv in H as (Hp & _ & _).
  by apply (paginate_elem _ _ _ _ _ Hp), sort_docs_elem, find_docs_elem in Hin.
Qed.

Lemma matches_path {D} (paths : list string) (holds : D → string → qval → bool)
    (filter : gmap string qval) (d : D) (k : string) (v : qval) :
  matches paths holds filter d = true → k ∈ paths → filter !! k = Some v →
  holds d k v = true.
Proof.
  unfold matches. rewrite forallb_forall. intros H Hk Hv.
  apply list_elem_of_In in Hk. specialize (H k Hk). by rewrite Hv in H.
Qed.

Lemma listFilter_client (u : User) (st ty : option string) :
  role u = "client" →
  CaseService.listFilter u st ty !! "createdBy" = Some (QStr (id u)).
Proof.
  intros Hr. unfold CaseService.listFilter. rewrite (role_is u _ Hr).
  destruct st as [s|], ty as [t|];
    repeat match goal with |- context [negb ?b] => destruct b; simpl end;
    lookups; done.
Qed.

(** A client is only ever handed cases they created: every case [listCases]
    returns to a user with role client is a stored case whose [createdBy] is
    the user's id, whatever the explicit filters, sort and page are. *)
Theorem listCases_client_own (u : User) (page limit : Z) (st ty : option string)
    (sortBy sortOrder : string) (w w' : World)
    (cs : list (ObjectId * Case.t)) (pg : Pagination) (i : ObjectId) (c : Case.t) :
  role u = "client" →
  CaseService.listCases u page limit st ty sortBy sortOrder w = (Ok (cs, pg), w') →
  (i, c) ∈ cs →
  caseDb w !! i = Some c ∧ Case.createdBy c = id u.
Proof.
  intros Hr H Hin. destruct (listed_matches _ _ _ _ _ _ _ _ _ _ _ _ _ H Hin) as [Hc Hm].
  split; [done|].
  apply (matches_path _ _ _ _ "createdBy" (QStr (id u))) in Hm;
    [|unfold CaseRepository.paths; set_solver|by apply listFilter_client].
  by apply String.eqb_eq in Hm.
Qed.

Lemma listCases_client_own_witness :
  caseDb sampleWorld !! "c1" = Some (mkCase "client1" "open" None (Some [])) ∧
  Case.createdBy (mkCase "client1" "open" None (Some [])) = "client1".
Proof.
  apply (listCases_client_own (mkUser "client1" "client" None) 1 10 None None
           "createdAt" "desc" sampleWorld sampleWorld
           [("c1", mkCase "client1" "open" None (Some []))]
           (pagination 1 1 10) "c1" (mkCase "client1" "open" None (Some []))).
  - reflexivity.
  - vm_compute. reflexivity.
  - apply list_elem_of_singleton. reflexivity.
Defined.

Lemma listCases_panelist_listed_witness :
  caseDb sampleWorld !! "c2" =
    Some (mkCase "client2" "assigned" (Some "admin1") (Some [entry "pA" "active"])) ∧
  existsb (fun ap => String.eqb (panelist ap) "pA")
    (Case.panelists (mkCase "client2" "assigned" (Some "admin1")
                       (Some [entry "pA" "active"]))) = true ∧
  existsb (fun ap => String.eqb (status ap) "active")
    (Case.panelists (mkCase "client2" "assigned" (Some "admin1")
                       (Some [entry "pA" "active"]))) = true.
Proof.
  apply (listCases_panelist_listed sampleWorld sampleWorld
           (mkUser "u5" "panelist" (Some "pA")) "pA" 1 10 None None
           "createdAt" "desc"
           [("c2", mkCase "client2" "assigned" (Some "admin1")
                     (Some [entry "pA" "active"]))]
           (pagination 1 1 10) "c2").
  - reflexivity.
  - reflexivity.
  - vm_compute. reflexivity.
  - apply list_elem_of_singleton. reflexivity.
Defined.

(** The explicit filters: a non-empty [status] or [type] argument restricts
    the listing to cases that carry it, for every role. *)
Theorem listCases_explicit_filters (u : User) (page limit : Z)
    (st ty : option string) (sortBy sortOrder : string) (w w' : World)
    (cs : list (ObjectId * Case.t)) (pg : Pagination) (i : ObjectId) (c : Case.t) :
  CaseService.listCases u page limit st ty sortBy sortOrder w = (Ok (cs, pg), w') →
  (i, c) ∈ cs →
  (∀ s, st = Some s → s ≠ "" → Case.status c = s) ∧
  (∀ t, ty = Some t → t ≠ "" → Case.type c = t).
Proof.
  intros H Hin. destruct (listed_matches _ _ _ _ _ _ _ _ _ _ _ _ _ H Hin) as [_ Hm].
  split.
  - intros s -> Hs.
    apply (matches_path _ _ _ _ "status" (QStr s)) in Hm;
      [by apply String.eqb_eq in Hm|unfold CaseRepository.paths; set_solver|].
    unfold CaseService.listFilter. apply String.eqb_neq in Hs. rewrite Hs. simpl.
    destruct ty as [t|]; [destruct (negb (String.eqb t ""))|]; lookups; done.
  - intros t -> Ht.
    apply (matches_path _ _ _ _ "type" (QStr t)) in Hm;
      [by apply String.eqb_eq in Hm|unfold CaseRepository.paths; set_solver|].
    unfold CaseService.listFilter. apply String.eqb_neq in Ht. rewrite Ht. simpl.
    by lookups.
Qed.

Lemma listCases_explicit_filters_witness :
  (∀ s, Some "assigned" = Some s → s ≠ "" →
        Case.status (mkCase "client2" "assigned" (Some "admin1")
                       (Some [entry "pA" "active"])) = s) ∧
  (∀ t, @None string = Some t → t ≠ "" →
        Case.type (mkCase "client2" "assigned" (Some "admin1")
                     (Some [entry "pA" "active"])) = t).
Proof.
  apply (listCases_explicit_filters (mkUser "admin1" "admin" None) 1 10
           (Some "assigned") None "createdAt" "desc" sampleWorld sampleWorld
           [("c2", mkCase "client2" "assigned" (Some "admin1")
                     (Some [entry "pA" "active"]))]
           (pagination 1 1 10) "c2").
  - vm_compute. reflexivity.
  - apply list_elem_of_singleton. reflexivity.
Defined.

(** [listCases] only reads: whatever it answers, the world is as before.
    When it answers, the total is the number of stored cases the filter
    selects, the page is no longer than that, and no longer than the size of
    a non-zero limit. *)
Theorem listCases_page (u : User) (page limit : Z) (st ty : option string)
    (sortBy sortOrder : string) (w : World) :
  (CaseService.listCases u page limit st ty sortBy sortOrder w).2 = w ∧
  ∀ cs pg, (CaseService.listCases u page limit st ty sortBy sortOrder w).1 = Ok (cs, pg) →
    total pg = selected (CaseRepository.matchesCase (CaseService.listFilter u st ty))
                 (caseDb w) ∧
    (length cs ≤ total pg)%nat ∧
    (limit ≠ 0%Z → (Z.of_nat (length cs) ≤ Z.abs limit)%Z).
Proof.
  rewrite listCases_run. split; [done|]. simpl. intros cs pg.
  destruct (paginate _ _ _) as [r|] eqn:Hp; [|discriminate].
  intros [= <- <-]. simpl.
  destruct (paginate_length _ _ _ _ Hp) as [Hl Hlim].
  rewrite sort_docs_length in Hl. by repeat split.
Qed.

Lemma listCases_page_witness :
  total (pagination 2 1 1) =
    selected (CaseRepository.matchesCase
                (CaseService.listFilter (mkUser "admin1" "admin" None) None None))
      (caseDb sampleWorld) ∧
  (length [("c1", mkCase "client1" "open" None (Some []))] ≤ total (pagination 2 1 1))%nat ∧
  (1%Z ≠ 0%Z →
   (Z.of_nat (length [("c1", mkCase "client1" "open" None (Some []))]) ≤ Z.abs 1)%Z).
Proof.
  apply (proj2 (listCases_page (mkUser "admin1" "admin" None) 1 1 None None
                  "createdAt" "desc" sampleWorld)
           [("c1", mkCase "client1" "open" None (Some []))] (pagination 2 1 1)).
  vm_compute. reflexivity.
Defined.

Lemma matches_empty {D} (paths : list string) (holds : D → string → qval → bool) (d : D) :
  matches paths holds ∅ d = true.
Proof.
  unfold matches. apply forallb_forall. intros k _. by rewrite lookup_empty.
Qed.

Lemma find_docs_all {D} (p : D → bool) (db : gmap ObjectId D) :
  (∀ d, p d = true) → length (find_docs p db) = size db.
Proof.
  intros Hp. unfold find_docs. rewrite <- length_map_to_list.
  induction (map_to_list db) as [|x l IH]; simpl; [done|].
  rewrite Hp. simpl. by rewrite IH.
Qed.

(** Without [status] and [type], a user who is neither client nor panelist
    gets no filter at all: the total is the number of stored cases.  That is
    the admin, and equally any role the guard does not know. *)
Theorem listCases_unfiltered_total (u : User) (page limit : Z)
    (sortBy sortOrder : string) (w w' : World)
    (cs : list (ObjectId * Case.t)) (pg : Pagination) :
  role u ≠ "client" → role u ≠ "panelist" →
  CaseService.listCases u page limit None None sortBy sortOrder w = (Ok (cs, pg), w') →
  total pg = size (caseDb w).
Proof.
  intros Hc Hp H. apply listCases_inv in H as (_ & -> & _). simpl.
  unfold selected, CaseService.listFilter.
  rewrite (role_is_not u _ Hc), (role_is_not u _ Hp).
  apply find_docs_all. intros c. apply matches_empty.
Qed.

Lemma listCases_unfiltered_total_witness :
  total (pagination 2 1 10) = size (caseDb sampleWorld).
Proof.
  apply (listCases_unfiltered_total (mkUser "admin1" "admin" None) 1 10
           "createdAt" "desc" sampleWorld sampleWorld
           [("c1", mkCase "client1" "open" None (Some []));
            ("c2", mkCase "client2" "assigned" (Some "admin1")
                     (Some [entry "pA" "active"]))]
           (pagination 2 1 10)).
  - discriminate.
  - discriminate.
  - vm_compute. reflexivity.
Defined.



(** ** assignCase *)

Lemma castUpdate_assign (adminId : ObjectId) (now : Time) (w : World) :
  castUpdate (<["status" := JStr "assigned"]>
                (<["assignedAt" := JNum now]> (<["assignedTo" := JStr adminId]> ∅))) w =
  (Ok {| p_title := None; p_description := None; p_type := None;
         p_status := Some "assigned"; p_priority := None; p_createdBy := None;
         p_assignedTo := Some (Some adminId); p_assignedAt := Some (Some now);
         p_assignedPanelists := None; p_panelAssignedAt := None;
         p_createdAt := None; p_updatedAt := None |}, w).
Proof. unfold castUpdate. lookups. reflexivity. Qed.

(** [assignCase] on an existing case sets [assignedTo] to the given admin,
    the status to assigned and [assignedAt] to the clock reading of the call,
    and leaves every other path as it was, [updatedAt] included: the update
    goes through [findByIdAndUpdate], which runs no save hook.  On a missing
    case it raises NotFound and stores nothing. *)
Theorem assignCase_assigns (w : World) (caseId adminId assignedBy : ObjectId) :
  match caseDb w !! caseId with
  | None =>
      CaseService.assignCase caseId adminId assignedBy w = (Throw NotFound, advance 1 w)
  | Some c =>
      ∃ c', CaseService.assignCase caseId adminId assignedBy w =
              (Ok (Case.hydrate c'),
               {| clock := clock w; ticks := S (ticks w);
                  caseDb := <[caseId := c']> (caseDb w); messageDb := messageDb w |}) ∧
            Case.assignedTo c' = Some adminId ∧
            Case.status c' = "assigned" ∧
            Case.assignedAt c' = Some (clock w (ticks w)) ∧
            Case.title c' = Case.title c ∧ Case.description c' = Case.description c ∧
            Case.type c' = Case.type c ∧ Case.priority c' = Case.priority c ∧
            Case.createdBy c' = Case.createdBy c ∧
            Case.assignedPanelists c' = Case.assignedPanelists c ∧
            Case.panelAssignedAt c' = Case.panelAssignedAt c ∧
            Case.createdAt c' = Case.createdAt c ∧
            Case.updatedAt c' = Case.updatedAt c
  end.
Proof.
  unfold CaseService.assignCase, CaseRepository.updateById.
  rewrite (bind_run _ _ _ _ _ (Date_now_run w)).
  destruct (caseDb w !! caseId) as [c|] eqn:Hc.
  - eexists. split.
    + erewrite bind_run; last first.
      { erewrite bind_run; last by apply castUpdate_assign.
        run. rewrite Hc. reflexivity. }
      reflexivity.
    + by repeat split.
  - erewrite bind_run; last first.
    { erewrite bind_run; last by apply castUpdate_assign.
      run. rewrite Hc. reflexivity. }
    reflexivity.
Qed.

(** ** Failures of casting *)

Definition cast_failure (e : error) : Prop := e = ValidationError ∨ e = CastError.

Lemma throws_now (P : error → Prop) : throws_only P Date_now.
Proof. by intros w e. Qed.

Lemma throws_throw {A} (P : error → Prop) (e : error) : P e → throws_only P (@throw A e).
Proof. intros He w e'. simpl. congruence. Qed.

Lemma throws_mapM {A B} (P : error → Prop) (f : A → M B) (l : list A) :
  (∀ a, throws_only P (f a)) → throws_only P (mapM f l).
Proof.
  intros Hf. induction l as [|a l IH]; [apply throws_ret|].
  change (mapM f (a :: l)) with (f a ≫= fun y => mapM f l ≫= fun k => mret (y :: k)).
  apply throws_bind; [done|]. intros y.
  apply throws_bind; [done|]. intros k. apply throws_ret.
Qed.

Lemma throws_castAt {A} (P : error → Prop) (cast : jsval → M A) (v : option jsval) :
  (∀ x, throws_only P (cast x)) → throws_only P (castAt cast v).
Proof.
  intros Hc. destruct v; simpl; [|apply throws_ret].
  apply throws_bind; [done|]. intros a. apply throws_ret.
Qed.

Ltac cast_cases :=
  unfold cast_failure;
  repeat match goal with
         | |- raises_only _ (match ?x with _ => _ end) => destruct x
         | |- raises_only _ (if ?b then _ else _) => destruct b
         end;
  first [apply raises_ok | apply raises_throw; auto].

Lemma castRequiredString_raises (v : jsval) :
  raises_only cast_failure (castRequiredString v).
Proof. unfold castRequiredString, castString. destruct v; simpl; cast_cases. Qed.

Lemma castEnum_raises (e : list string) (v : jsval) :
  raises_only cast_failure (castEnum e v).
Proof. unfold castEnum. cast_cases. Qed.

Lemma castRef_raises (v : jsval) : raises_only cast_failure (castRef v).
Proof. unfold castRef. cast_cases. Qed.

Lemma castRequiredRef_raises (v : option jsval) :
  raises_only cast_failure (castRequiredRef v).
Proof. unfold castRequiredRef. cast_cases. Qed.

Lemma castDate_raises (v : jsval) : raises_only cast_failure (castDate v).
Proof. unfold castDate. cast_cases. Qed.

Lemma castTime_raises (v : jsval) : raises_only cast_failure (castTime v).
Proof. unfold castTime. cast_cases. Qed.

Lemma castAssignedPanelists_throws (v : jsval) :
  throws_only cast_failure (castAssignedPanelists v).
Proof.
  destruct v as [| | | |vs|]; simpl;
    try (apply throws_throw; unfold cast_failure; auto).
  apply throws_mapM. intros [| | | | |fs]; simpl;
    try (apply throws_throw; unfold cast_failure; auto).
  repeat (apply throws_bind; [|intros ?]);
    repeat match goal with |- throws_only _ (match ?o with _ => _ end) => destruct o end;
    auto using throws_lift, throws_ret, throws_now, castRequiredRef_raises,
      castTime_raises, castEnum_raises.
Qed.

(** Casting an update fails with a validation or a cast error, or not at all. *)
Lemma castUpdate_throws (u : gmap string jsval) : throws_only cast_failure (castUpdate u).
Proof.
  unfold castUpdate.
  repeat (apply throws_bind;
          [apply throws_castAt; intros ?;
           auto using throws_lift, castRequiredString_raises, castEnum_raises,
             castRef_raises, castRequiredRef_raises, castDate_raises,
             castTime_raises, castAssignedPanelists_throws
          |intros ?]).
  apply throws_ret.
Qed.

Lemma castUpdate_stores (u : gmap string jsval) (w : World) :
  caseDb (castUpdate u w).2 = caseDb w ∧ messageDb (castUpdate u w).2 = messageDb w.
Proof. destruct (clock_only_castUpdate u w) as [n ->]. done. Qed.

(** ** updateCase: its failures *)

Lemma updateCase_run (i : ObjectId) (d : gmap string jsval) (u : User) (w : World) :
  CaseService.updateCase i d u w =
  match caseDb w !! i with
  | None => (Throw NotFound, w)
  | Some c =>
      match CaseService._checkCaseAccess (Case.hydrate c) u with
      | Throw e => (Throw e, w)
      | Ok _ =>
          CaseRepository.updateById i
            (if negb (String.eqb (role u) "admin")
             then CaseService.stripRestricted d else d) w
      end
  end.
Proof.
  unfold CaseService.updateCase.
  rewrite (bind_run _ _ _ _ _ (Case_findById_run i false w)).
  destruct (caseDb w !! i) as [c|]; simpl; [|done].
  unfold mbind, M_bind, lift.
  by destruct (CaseService._checkCaseAccess (Case.hydrate c) u).
Qed.

Lemma updateById_run (i : ObjectId) (d : gmap string jsval) (w : World) :
  CaseRepository.updateById i d w =
  match castUpdate d w with
  | (Throw e, w1) => (Throw e, w1)
  | (Ok p, w1) =>
      match caseDb w !! i with
      | None => (Ok None, w1)
      | Some c =>
          (Ok (Some (Case.hydrate (applyPatch p c))),
           {| clock := clock w1; ticks := ticks w1;
              caseDb := <[i := applyPatch p c]> (caseDb w); messageDb := messageDb w1 |})
      end
  end.
Proof.
  unfold CaseRepository.updateById, mbind, M_bind.
  destruct (castUpdate_stores d w) as [Hc _].
  destruct (castUpdate d w) as [[p|e] w1]; [|done]. simpl in Hc.
  unfold cases. rewrite Hc. destruct (caseDb w !! i); [|done].
  run. by rewrite Hc.
Qed.

(** A failed [updateCase] stores nothing: whenever it raises an error, both
    collections are as they were before the call. *)
Theorem updateCase_failure_keeps_store (i : ObjectId) (d : gmap string jsval)
    (u : User) (w : World) (e : error) :
  (CaseService.updateCase i d u w).1 = Throw e →
  caseDb (CaseService.updateCase i d u w).2 = caseDb w ∧
  messageDb (CaseService.updateCase i d u w).2 = messageDb w.
Proof.
  rewrite updateCase_run.
  destruct (caseDb w !! i) as [c|] eqn:Hc; [|done].
  destruct (CaseService._checkCaseAccess (Case.hydrate c) u); [|done].
  rewrite updateById_run, Hc.
  set (d' := if negb _ then _ else _).
  destruct (castUpdate_stores d' w) as [H1 H2].
  destruct (castUpdate d' w) as [[p|e'] w1]; simpl in *; [discriminate|done].
Qed.

Lemma updateCase_failure_keeps_store_witness :
  caseDb (CaseService.updateCase "c1" {[ "title" := JStr " " ]}
            (mkUser "client1" "client" None) sampleWorld).2 = caseDb sampleWorld ∧
  messageDb (CaseService.updateCase "c1" {[ "title" := JStr " " ]}
               (mkUser "client1" "client" None) sampleWorld).2 = messageDb sampleWorld.
Proof.
  apply (updateCase_failure_keeps_store "c1" {[ "title" := JStr " " ]}
           (mkUser "client1" "client" None) sampleWorld ValidationError).
  reflexivity.
Defined.

Lemma isActiveEntryOf_raises (u : User) (ap : AssignedPanelist) :
  raises_only (fun e => e = TypeError) (CaseService.isActiveEntryOf u ap).
Proof.
  unfold CaseService.isActiveEntryOf.
  destruct (panelistId u); simpl; [by intros ?|by intros ? [= <-]].
Qed.

Lemma Array_some_raises {A} (P : error → Prop) (f : A → result bool) (l : list A) :
  (∀ a, raises_only P (f a)) → raises_only P (Array_some f l).
Proof.
  intros Hf. induction l as [|a l IH]; simpl; [apply raises_ok|].
  apply raises_bind; [done|]. intros []; [apply raises_ok|done].
Qed.

(** The guard refuses with Forbidden or breaks with TypeError, nothing else. *)
Lemma guard_raises (c : Case.t) (u : User) :
  raises_only (fun e => e = Forbidden ∨ e = TypeError)
    (CaseService._checkCaseAccess c u).
Proof.
  unfold CaseService._checkCaseAccess.
  destruct (String.eqb (role u) "admin"); [apply raises_ok|].
  apply raises_bind; [|intros _; apply raises_bind; [|intros _; apply raises_ok]].
  - destruct (String.eqb (role u) "client"); [|apply raises_ok].
    destruct (negb _); [apply raises_throw; auto|apply raises_ok].
  - destruct (String.eqb (role u) "panelist"); [|apply raises_ok].
    apply raises_bind.
    + destruct (Case.assignedPanelists c); [apply raises_ok|apply raises_throw; auto].
    + intros aps. apply raises_bind.
      * apply Array_some_raises. intros ap e He.
        right. by apply (isActiveEntryOf_raises u ap).
      * intros []; [apply raises_ok|apply raises_throw; auto].
Qed.

(** [updateCase] raises NotFound exactly when the case does not exist, and
    Forbidden exactly when it exists and the guard refuses the user; the
    update object is not looked at before both checks have passed. *)
Theorem updateCase_NotFound_Forbidden (i : ObjectId) (d : gmap string jsval)
    (u : User) (w : World) :
  ((CaseService.updateCase i d u w).1 = Throw NotFound ↔ caseDb w !! i = None) ∧
  ((CaseService.updateCase i d u w).1 = Throw Forbidden ↔
     ∃ c, caseDb w !! i = Some c ∧
          CaseService._checkCaseAccess (Case.hydrate c) u = Throw Forbidden).
Proof.
  rewrite updateCase_run.
  destruct (caseDb w !! i) as [c|] eqn:Hc.
  - pose proof (guard_raises (Case.hydrate c) u) as Hg.
    destruct (CaseService._checkCaseAccess (Case.hydrate c) u) as [b|e] eqn:E.
    + rewrite updateById_run, Hc.
      set (d' := if negb _ then _ else _).
      pose proof (castUpdate_throws d' w) as Ht.
      destruct (castUpdate d' w) as [[p|e'] w1]; simpl in *.
      * split; split; try discriminate. intros (c' & [= <-] & ?). congruence.
      * split; split; try discriminate.
        -- intros [= ->]. by destruct (Ht NotFound eq_refl).
        -- intros [= ->]. by destruct (Ht Forbidden eq_refl).
        -- intros (c' & [= <-] & ?). congruence.
    + simpl. split; split; try discriminate.
      * intros [= ->]. by destruct (Hg NotFound eq_refl).
      * intros [= ->]. by exists c.
      * intros (c' & [= <-] & ?). congruence.
  - simpl. split; split; try done. by intros (c' & ? & ?).
Qed.

(** ** updateCase: what is not restricted *)

Lemma castUpdate_createdBy (x : ObjectId) (w : World) :
  castUpdate (<["createdBy" := JStr x]> ∅) w =
  (Ok {| p_title := None; p_description := None; p_type := None;
         p_status := None; p_priority := None; p_createdBy := Some x;
         p_assignedTo := None; p_assignedAt := None;
         p_assignedPanelists := None; p_panelAssignedAt := None;
         p_createdAt := None; p_updatedAt := None |}, w).
Proof. unfold castUpdate. lookups. reflexivity. Qed.

(** [createdBy] is not among the restricted fields: the client who owns a
    case can put any id there.  The update succeeds, changes nothing else,
    and when the new id is not the client's own, the guard refuses that
    client on the case from then on. *)
Theorem updateCase_owner_can_reassign (w : World) (i : ObjectId) (c : Case.t)
    (u : User) (x : ObjectId) :
  caseDb w !! i = Some c → role u = "client" → Case.createdBy c = id u →
  ∃ c', CaseService.updateCase i (<["createdBy" := JStr x]> ∅) u w =
          (Ok (Some (Case.hydrate c')),
           {| clock := clock w; ticks := ticks w;
              caseDb := <[i := c']> (caseDb w); messageDb := messageDb w |}) ∧
        Case.createdBy c' = x ∧
        Case.status c' = Case.status c ∧ Case.assignedTo c' = Case.assignedTo c ∧
        Case.assignedPanelists c' = Case.assignedPanelists c ∧
        Case.priority c' = Case.priority c ∧ Case.title c' = Case.title c ∧
        (x ≠ id u → CaseService._checkCaseAccess (Case.hydrate c') u = Throw Forbidden).
Proof.
  intros Hc Hr Hown. rewrite updateCase_run, Hc.
  destruct (guard_client (Case.hydrate c) u Hr) as [Hg _]. simpl in Hg.
  rewrite Hown, String.eqb_refl in Hg. rewrite Hg.
  rewrite (role_is_not u "admin") by (rewrite Hr; discriminate). simpl.
  assert (CaseService.stripRestricted (<["createdBy" := JStr x]> ∅)
          = <["createdBy" := JStr x]> ∅) as ->.
  { unfold CaseService.stripRestricted, truthy_at. simpl. by lookups. }
  rewrite updateById_run, castUpdate_createdBy, Hc.
  eexists. split; [reflexivity|]. repeat split.
  intros Hx. destruct (guard_client (Case.hydrate (applyPatch
    {| p_title := None; p_description := None; p_type := None;
       p_status := None; p_priority := None; p_createdBy := Some x;
       p_assignedTo := None; p_assignedAt := None;
       p_assignedPanelists := None; p_panelAssignedAt := None;
       p_createdAt := None; p_updatedAt := None |} c)) u Hr) as [-> _].
  simpl. apply String.eqb_neq in Hx. by rewrite Hx.
Qed.

Lemma updateCase_owner_can_reassign_witness :
  ∃ c', CaseService.updateCase "c1" (<["createdBy" := JStr "client2"]> ∅)
          (mkUser "client1" "client" None) sampleWorld =
          (Ok (Some (Case.hydrate c')),
           {| clock := clock sampleWorld; ticks := ticks sampleWorld;
              caseDb := <["c1" := c']> (caseDb sampleWorld);
              messageDb := messageDb sampleWorld |}) ∧
        Case.createdBy c' = "client2" ∧
        Case.status c' = "open" ∧ Case.assignedTo c' = None ∧
        Case.assignedPanelists c' = Some [] ∧
        Case.priority c' = "medium" ∧ Case.title c' = "Boundary wall" ∧
        ("client2" ≠ "client1" →
         CaseService._checkCaseAccess (Case.hydrate c')
           (mkUser "client1" "client" None) = Throw Forbidden).
Proof.
  apply (updateCase_owner_can_reassign sampleWorld "c1"
           (mkCase "client1" "open" None (Some []))
           (mkUser "client1" "client" None) "client2"); reflexivity.
Defined.


(** ** createCase *)




Lemma asValidation_ok {A} (m : M A) (w w' : World) (a : A) :
  asValidation m w = (Ok a, w') → m w = (Ok a, w').
Proof. unfold asValidation. by destruct (m w) as [[?|[]] ?]. Qed.


Lemma castAt_lift_present {A} (f : jsval → result A) (v : jsval) (w w' : World)
    (a : option A) :
  castAt (fun x => lift (f x)) (Some v) w = (Ok a, w') → ∃ s, f v = Ok s ∧ a = Some s.
Proof.
  simpl. unfold mbind, M_bind, lift. destruct (f v) as [s|e]; [|discriminate].
  intros [= <- _]. eauto.
Qed.

(** What the cast update carries for keys that are in the update object. *)
Lemma castUpdate_present (u : gmap string jsval) (w w' : World) (p : CasePatch) :
  castUpdate u w = (Ok p, w') →
  (∀ v, u !! "status" = Some v →
        ∃ s, castEnum Case.status_enum v = Ok s ∧ p_status p = Some s) ∧
  (∀ v, u !! "createdBy" = Some v →
        ∃ s, castRequiredRef (Some v) = Ok s ∧ p_createdBy p = Some s) ∧
  (∀ v, u !! "priority" = Some v →
        ∃ s, castEnum Case.priority_enum v = Ok s ∧ p_priority p = Some s) ∧
  (∀ v, u !! "assignedTo" = Some v →
        ∃ s, castRef v = Ok s ∧ p_assignedTo p = Some s) ∧
  (u !! "title" = None → p_title p = None) ∧
  (u !! "description" = None → p_description p = None) ∧
  (u !! "type" = None → p_type p = None).
Proof.
  intros H. unfold castUpdate in H.
  do 12 (let a := fresh "a" in let w1 := fresh "w" in let Ha := fresh "Ha" in
         apply bind_inv in H as (a & w1 & Ha & H)).
  injection H as <- _. simpl.
  repeat split; intros;
    match goal with
    | Hk : u !! ?k = Some ?v, Hx : castAt _ (u !! ?k) _ = _ |- _ =>
        rewrite Hk in Hx; exact (castAt_lift_present _ _ _ _ _ Hx)
    | Hk : u !! ?k = None, Hx : castAt _ (u !! ?k) _ = (Ok ?a, _) |- ?a = None =>
        rewrite Hk in Hx; exact (castAt_absent _ _ _ _ Hx)
    end.
Qed.





Lemma default_now_stores (o : option Time) (w w' : World) (r : result Time) :
  match o with Some t => mret t | None => Date_now end w = (r, w') →
  caseDb w' = caseDb w ∧ messageDb w' = messageDb w.
Proof. destruct o; intros [= _ <-]; done. Qed.

(** A case created through [createCase] is stored under an id no case had,
    with status open and the caller as [createdBy], whatever the payload
    says for these two; the other cases and all messages stay as they were.
    The payload's [priority] and [assignedTo], in contrast, are taken over
    as given: creation does not strip the fields [updateCase] restricts. *)
Theorem createCase_creates (d : gmap string jsval) (uid : ObjectId) (w w' : World)
    (i : ObjectId) (c : Case.t) :
  caseService.createCase d uid w = (Ok (i, c), w') →
  Case.status c = "open" ∧ Case.createdBy c = uid ∧
  caseDb w !! i = None ∧
  caseDb w' = <[i := c]> (caseDb w) ∧ messageDb w' = messageDb w ∧
  (∀ v, d !! "priority" = Some v → castEnum Case.priority_enum v = Ok (Case.priority c)) ∧
  (∀ v, d !! "assignedTo" = Some v → castRef v = Ok (Case.assignedTo c)).
Proof.
  unfold caseService.createCase, caseRepo.create. intros E.
  apply bind_inv in E as (p & w1 & Hcast & E).
  apply asValidation_ok in Hcast.
  destruct (castUpdate_stores
              (<["status" := JStr "open"]> (<["createdBy" := JStr uid]> d)) w)
    as [Hc1 Hm1].
  rewrite Hcast in Hc1, Hm1. simpl in Hc1, Hm1.
  apply castUpdate_present in Hcast as (Hst & Hcb & Hpr & Hat & _).
  destruct (Hst (JStr "open")) as (s & Hs & Hps); [by lookups|].
  destruct (Hcb (JStr uid)) as (o & Ho & Hpo); [by lookups|].
  injection Hs as <-. injection Ho as <-.
  apply bind_inv in E as (created & w2 & H2 & E).
  apply default_now_stores in H2 as [Hc2 Hm2].
  apply bind_inv in E as (updated & w3 & H3 & E).
  apply default_now_stores in H3 as [Hc3 Hm3].
  apply bind_inv in E as (doc & w4 & Hdoc & E).
  unfold lift in Hdoc. injection Hdoc as Hdoc <-.
  rewrite Hpo in Hdoc. rewrite Hps in Hdoc.
  destruct (p_title p), (p_description p), (p_type p); try discriminate.
  injection Hdoc as <-.
  unfold CaseRepository.save in E. run_in E. injection E as <- <- <-. simpl.
  rewrite Hc3, Hc2, Hc1, Hm3, Hm2, Hm1. repeat split.
  - apply not_elem_of_dom, is_fresh.
  - intros v Hv. destruct (Hpr v) as (x & Hx & ->); [by lookups|]. done.
  - intros v Hv. destruct (Hat v) as (x & Hx & ->); [by lookups|]. done.
Qed.

Lemma createCase_creates_witness :
  let d : gmap string jsval :=
    <["status" := JStr "closed"]> (<["createdBy" := JStr "admin1"]>
      (<["priority" := JStr "urgent"]> (<["type" := JStr "land"]>
         (<["description" := JStr "Fence line"]> (<["title" := JStr " Fence "]> ∅))))) in
  let r := caseService.createCase d "client3" sampleWorld in
  ∃ i c, r.1 = Ok (i, c) ∧
         Case.status c = "open" ∧ Case.createdBy c = "client3" ∧
         Case.priority c = "urgent" ∧ Case.title c = "Fence" ∧
         caseDb sampleWorld !! i = None ∧
         caseDb r.2 = <[i := c]> (caseDb sampleWorld).
Proof.
  intros d r.
  destruct r as [[[i c]|e] w'] eqn:E; [|vm_compute in E; discriminate].
  destruct (createCase_creates d "client3" sampleWorld w' i c E)
    as (Hs & Hc & Hi & Hdb & _ & Hp & _).
  exists i, c. repeat split; try done.
  - specialize (Hp (JStr "urgent") eq_refl). by injection Hp.
  - vm_compute in E. by injection E as _ <- _.
Defined.

(** ** getCaseById *)

Section GetCaseById.
Context {U P : Type}.
Variables (users : gmap ObjectId U) (panelistDocs : gmap ObjectId P).

Lemma getCaseById_run (i : ObjectId) (u : User) (w : World) :
  caseService.getCaseById users panelistDocs i u w =
  match caseDb w !! i with
  | None => (Throw NotFound, w)
  | Some c =>
      match caseService._checkCaseAccess
              (caseRepo.populateCase users panelistDocs c) u with
      | Ok _ => (Ok (caseRepo.populateCase users panelistDocs c), w)
      | Throw e => (Throw e, w)
      end
  end.
Proof.
  unfold caseService.getCaseById, caseRepo.findByIdWithDetails. run.
  destruct (caseDb w !! i) as [c|]; simpl; [|done].
  by destruct (caseService._checkCaseAccess _ u).
Qed.

Lemma populated_entry_never_active (u : User) (ap : PopulatedPanelist U P) :
  panelistId u ≠ Some "[object Object]" →
  caseService.isActiveEntryOf u ap ≠ Ok true.
Proof.
  intros Hp. unfold caseService.isActiveEntryOf.
  destruct (pp_panelist ap); [|discriminate].
  destruct (panelistId u) as [pid|]; [|discriminate].
  unfold objectToString, toString, mbind, result_bind, mret, result_ret.
  assert (String.eqb "[object Object]" pid = false) as ->; [|discriminate].
  apply String.eqb_neq. intros <-. by apply Hp.
Qed.

Lemma populated_entry_raises (u : User) (ap : PopulatedPanelist U P) :
  raises_only (fun e => e = TypeError) (caseService.isActiveEntryOf u ap).
Proof.
  unfold caseService.isActiveEntryOf.
  destruct (pp_panelist ap); [|by intros ? [= <-]].
  destruct (panelistId u); [by intros ?|by intros ? [= <-]].
Qed.

Lemma Array_some_never {A} (f : A → result bool) (l : list A) :
  (∀ a, f a ≠ Ok true) → Array_some f l ≠ Ok true.
Proof.
  intros Hf. induction l as [|a l IH]; simpl; [discriminate|].
  specialize (Hf a). destruct (f a) as [[]|]; simpl; done.
Qed.

(** [getCaseById] raises NotFound on a missing case and hands an admin the
    populated case, leaving the world as it is. *)
Theorem getCaseById_admin (i : ObjectId) (u : User) (w : World) :
  (caseDb w !! i = None →
   caseService.getCaseById users panelistDocs i u w = (Throw NotFound, w)) ∧
  (∀ c, caseDb w !! i = Some c → role u = "admin" →
        caseService.getCaseById users panelistDocs i u w =
          (Ok (caseRepo.populateCase users panelistDocs c), w)).
Proof.
  rewrite getCaseById_run. split.
  - by intros ->.
  - intros c -> Hr. unfold caseService._checkCaseAccess. by rewrite (role_is u _ Hr).
Qed.

(** [getCaseById] never succeeds for a client or a panelist, the creating
    client and an actively assigned panelist included: the guard is applied
    to the populated lean document, where [createdBy] and [panelist] are
    objects whose [toString()] is "[object Object]" (or null), never the id.
    The call ends in Forbidden or TypeError and changes nothing. *)
Theorem getCaseById_refuses_non_admins (i : ObjectId) (u : User) (w : World) (c : Case.t) :
  role u = "client" ∨ role u = "panelist" →
  id u ≠ "[object Object]" → panelistId u ≠ Some "[object Object]" →
  caseDb w !! i = Some c →
  ∃ e, caseService.getCaseById users panelistDocs i u w = (Throw e, w) ∧
       (e = Forbidden ∨ e = TypeError).
Proof.
  intros Hr Hid Hpid Hc. rewrite getCaseById_run, Hc.
  unfold caseService._checkCaseAccess. destruct Hr as [Hr|Hr].
  - rewrite (role_is u _ Hr), (role_is_not u "admin") by (rewrite Hr; discriminate).
    unfold caseRepo.populateCase, d_createdBy.
    destruct (users !! Case.createdBy c); [|simpl; eauto].
    unfold objectToString, mbind, result_bind.
    assert (String.eqb "[object Object]" (id u) = false) as ->; [|simpl; eauto].
    apply String.eqb_neq. intros E. by apply Hid.
  - rewrite (role_is u _ Hr), !(role_is_not u) by (rewrite Hr; discriminate).
    simpl. destruct (Case.assignedPanelists c) as [aps|]; simpl; [|eauto].
    pose proof (Array_some_never (caseService.isActiveEntryOf u)
                  (List.map (caseRepo.populatePanelist users panelistDocs) aps)
                  (fun ap => populated_entry_never_active u ap Hpid)) as Hn.
    pose proof (Array_some_raises (fun e => e = TypeError)
                  (caseService.isActiveEntryOf u)
                  (List.map (caseRepo.populatePanelist users panelistDocs) aps)
                  (populated_entry_raises u)) as Hraise.
    destruct (Array_some _ _) as [[]|e]; simpl; [done|eauto|].
    rewrite (Hraise e eq_refl). eauto.
Qed.

End GetCaseById.

Lemma getCaseById_admin_witness :
  caseService.getCaseById (U:=string) (P:=string) {[ "client1" := "Ann" ]} ∅ "c1"
    (mkUser "admin1" "admin" None) sampleWorld =
  (Ok (caseRepo.populateCase {[ "client1" := "Ann" ]} ∅
         (mkCase "client1" "open" None (Some []))), sampleWorld).
Proof.
  apply (proj2 (getCaseById_admin (U:=string) (P:=string) {[ "client1" := "Ann" ]} ∅
                  "c1" (mkUser "admin1" "admin" None) sampleWorld)); reflexivity.
Defined.

Lemma getCaseById_refuses_non_admins_witness :
  ∃ e, caseService.getCaseById (U:=string) (P:=string) {[ "client1" := "Ann" ]} ∅ "c1"
         (mkUser "client1" "client" None) sampleWorld = (Throw e, sampleWorld) ∧
       (e = Forbidden ∨ e = TypeError).
Proof.
  apply (getCaseById_refuses_non_admins (U:=string) (P:=string)
           {[ "client1" := "Ann" ]} ∅ "c1" (mkUser "client1" "client" None)
           sampleWorld (mkCase "client1" "open" None (Some []))).
  - left. reflexivity.
  - discriminate.
  - discriminate.
  - reflexivity.
Defined.

(** ** Dashboard statistics *)

Lemma insert_sorted_perm {A} (le : A → A → bool) (x : A) (l : list A) :
  insert_sorted le x l ≡ₚ x :: l.
Proof.
  induction l as [|y l IH]; simpl; [done|].
  destruct (le x y); [done|]. rewrite IH. apply Permutation_swap.
Qed.

Lemma sort_docs_perm {A} (keyf : A → skey) (dir : Z) (l : list A) :
  sort_docs keyf dir l ≡ₚ l.
Proof.
  unfold sort_docs. induction l as [|x l IH]; simpl; [done|].
  by rewrite insert_sorted_perm, IH.
Qed.

Lemma bump_sum (k : string) (acc : list (string * nat)) :
  sum_list_with snd (bump k acc) = S (sum_list_with snd acc).
Proof.
  induction acc as [|[k' n] acc IH]; simpl; [done|].
  destruct (String.eqb k k'); simpl; [done|]. rewrite IH. lia.
Qed.

Lemma groupCount_sum {D} (field : D → string) (docs : list (ObjectId * D)) :
  sum_list_with snd (groupCount field docs) = length docs.
Proof.
  unfold groupCount. induction docs as [|d docs IH]; simpl; [done|].
  by rewrite bump_sum, IH.
Qed.

Lemma bump_count_in (k k' : string) (acc : list (string * nat)) :
  count_in k' (bump k acc) =
  if String.eqb k' k then S (count_in k' acc) else count_in k' acc.
Proof.
  induction acc as [|[k0 n] acc IH]; simpl.
  - by destruct (String.eqb k' k).
  - destruct (String.eqb_spec k k0) as [->|Hne]; simpl.
    + by destruct (String.eqb k' k0).
    + destruct (String.eqb_spec k' k0) as [->|Hne'].
      * apply String.eqb_neq in Hne. by rewrite String.eqb_sym, Hne.
      * exact IH.
Qed.

Lemma bump_keys (k : string) (acc : list (string * nat)) :
  (bump k acc).*1 = if bool_decide (k ∈ acc.*1) then acc.*1 else (acc.*1 ++ [k])%list.
Proof.
  induction acc as [|[k0 n] acc IH]; [done|].
  cbn [bump]. destruct (String.eqb_spec k k0) as [->|Hne]; rewrite !fmap_cons.
  - rewrite bool_decide_eq_true_2 by apply list_elem_of_here. done.
  - rewrite IH. cbn [fst].
    assert (k ∈ k0 :: acc.*1 ↔ k ∈ acc.*1) as Hiff.
    { rewrite elem_of_cons. split; [intros [?|?]; [by subst|done]|by right]. }
    rewrite (bool_decide_ext _ _ Hiff). by case_bool_decide.
Qed.

Lemma bump_NoDup (k : string) (acc : list (string * nat)) :
  NoDup acc.*1 → NoDup (bump k acc).*1.
Proof.
  intros Hn. rewrite bump_keys. case_bool_decide as Hk; [done|].
  apply NoDup_app. split; [done|]. split; [|apply NoDup_singleton].
  intros x Hx Hx'. apply list_elem_of_singleton in Hx'. by subst.
Qed.

Lemma bump_positive (k : string) (acc : list (string * nat)) :
  Forall (fun g => 0 < g.2)%nat acc → Forall (fun g => 0 < g.2)%nat (bump k acc).
Proof.
  induction 1 as [|[k0 n] acc Hn Hacc IH]; simpl.
  - repeat constructor.
  - destruct (String.eqb k k0); constructor; simpl in *; auto; lia.
Qed.

Lemma groupCount_good {D} (field : D → string) (docs : list (ObjectId * D)) :
  NoDup (groupCount field docs).*1 ∧
  Forall (fun g => 0 < g.2)%nat (groupCount field docs) ∧
  ∀ k, count_in k (groupCount field docs) =
       length (List.filter (fun d => String.eqb (field d.2) k) docs).
Proof.
  unfold groupCount. induction docs as [|d docs (IH1 & IH2 & IH3)]; simpl.
  - repeat split; constructor.
  - split; [by apply bump_NoDup|]. split; [by apply bump_positive|].
    intros k. rewrite bump_count_in, IH3, String.eqb_sym.
    by destruct (String.eqb (field d.2) k).
Qed.

Lemma count_in_elem (k : string) (n : nat) (acc : list (string * nat)) :
  NoDup acc.*1 → (k, n) ∈ acc → count_in k acc = n.
Proof.
  induction acc as [|[k0 m] acc IH]; simpl; intros Hn Hin; [by inversion Hin|].
  apply NoDup_cons in Hn as [Hk0 Hn].
  apply elem_of_cons in Hin as [[= -> ->]|Hin]; [by rewrite String.eqb_refl|].
  destruct (String.eqb_spec k k0) as [->|Hne]; [|by apply IH].
  destruct Hk0. apply list_elem_of_fmap. by exists (k0, n).
Qed.

Lemma count_in_absent (k : string) (acc : list (string * nat)) :
  k ∉ acc.*1 → count_in k acc = 0%nat.
Proof.
  induction acc as [|[k0 m] acc IH]; simpl; [done|].
  rewrite not_elem_of_cons. intros [Hne Hk].
  apply String.eqb_neq in Hne. rewrite Hne. by apply IH.
Qed.

(** A grouping with distinct keys and positive counts lists [(k, n)] exactly
    when [n] is what [count_in] reads and is positive. *)
Lemma grouping_elem (acc : list (string * nat)) (k : string) (n : nat) :
  NoDup acc.*1 → Forall (fun g => 0 < g.2)%nat acc →
  ((k, n) ∈ acc ↔ count_in k acc = n ∧ (0 < n)%nat).
Proof.
  intros Hn Hp. split.
  - intros Hin. split; [by apply count_in_elem|].
    rewrite Forall_forall in Hp. exact (Hp _ Hin).
  - intros [Hc Hpos]. destruct (decide (k ∈ acc.*1)) as [Hk|Hk].
    + apply list_elem_of_fmap in Hk as ([k' m] & -> & Hin). simpl in *.
      by rewrite (count_in_elem _ _ _ Hn Hin) in Hc; subst.
    + rewrite (count_in_absent _ _ Hk) in Hc. lia.
Qed.

Lemma getStatsByStatus_run (w : World) :
  caseRepo.getStatsByStatus w =
  (Ok (sort_docs (fun g => KNum (Z.of_nat g.2)) (-1)
         (groupCount Case.status (map_to_list (caseDb w)))), w).
Proof. reflexivity. Qed.

Lemma getStatsByType_run (w : World) :
  caseRepo.getStatsByType w =
  (Ok (sort_docs (fun g => KNum (Z.of_nat g.2)) (-1)
         (groupCount Case.type (map_to_list (caseDb w)))), w).
Proof. reflexivity. Qed.

Lemma stats_sum (l : list (string * nat)) :
  sum_list_with snd (sort_docs (fun g => KNum (Z.of_nat g.2)) (-1) l) =
  sum_list_with snd l.
Proof. apply sum_list_with_Permutation_proper, sort_docs_perm. Qed.

Lemma Sorted_weaken {A} (R R' : relation A) (l : list A) :
  (∀ a b, R a b → R' a b) → Sorted R l → Sorted R' l.
Proof.
  intros HR. induction 1 as [|x l Hl IH Hx]; constructor; [done|].
  destruct Hx; constructor; auto.
Qed.

Lemma stats_sorted (l : list (string * nat)) :
  Sorted (fun a b => b.2 ≤ a.2)%nat
    (sort_docs (fun g => KNum (Z.of_nat g.2)) (-1) l).
Proof.
  eapply Sorted_weaken; [|apply sort_docs_Sorted].
  intros a b H. unfold in_order in H. simpl in H. apply Z.leb_le in H. lia.
Qed.

(** The dashboard counts add up: for any user (none is checked) the counts
    by status and the counts by type each sum to the number of stored cases,
    both lists come largest count first, and nothing is changed. *)
Theorem getDashboardStats_totals (u : User) (w : World) :
  ∃ byStatus byType,
    caseService.getDashboardStats u w = (Ok (byStatus, byType), w) ∧
    sum_list_with snd byStatus = size (caseDb w) ∧
    sum_list_with snd byType = size (caseDb w) ∧
    Sorted (fun a b => b.2 ≤ a.2)%nat byStatus ∧
    Sorted (fun a b => b.2 ≤ a.2)%nat byType.
Proof.
  eexists _, _. split; [reflexivity|].
  rewrite !stats_sum, !groupCount_sum, length_map_to_list.
  repeat split; apply stats_sorted.
Qed.

(** Grouping by status is exact: each status is listed at most once, and
    [(k, n)] is listed exactly when [n] cases have status [k] and [n] is not
    zero, so a status no case has does not appear. *)
Theorem getStatsByStatus_groups (w : World) :
  ∃ byStatus,
    caseRepo.getStatsByStatus w = (Ok byStatus, w) ∧
    NoDup byStatus.*1 ∧
    ∀ k n, (k, n) ∈ byStatus ↔ n = cases_with Case.status k (caseDb w) ∧ (0 < n)%nat.
Proof.
  eexists. split; [apply getStatsByStatus_run|].
  destruct (groupCount_good Case.status (map_to_list (caseDb w))) as (Hn & Hp & Hc).
  split; [by rewrite sort_docs_perm|].
  intros k n. rewrite sort_docs_perm, (grouping_elem _ _ _ Hn Hp), Hc.
  unfold cases_with. split; intros [? ?]; by subst.
Qed.

(** ** Creating messages, in general *)



Lemma result_bind_inv {A B} (r : result A) (f : A → result B) (b : B) :
  r ≫= f = Ok b → ∃ a, r = Ok a ∧ f a = Ok b.
Proof. destruct r as [a|e]; simpl; [eauto|discriminate]. Qed.











(** ** Message listings *)

Lemma page_of_elem (filter : gmap string qval) (dir page limit : Z)
    (db : gmap ObjectId Message.t) (l : list (ObjectId * Message.t))
    (i : ObjectId) (m : Message.t) :
  page_of filter dir page limit db = Ok l → (i, m) ∈ l →
  db !! i = Some m ∧ MessageRepository.matchesMessage filter m = true.
Proof.
  unfold page_of. intros Hp Hin.
  by apply (paginate_elem _ _ _ _ _ Hp), sort_docs_elem, find_docs_elem in Hin.
Qed.

Lemma page_of_order (filter : gmap string qval) (dir page limit : Z)
    (db : gmap ObjectId Message.t) (l : list (ObjectId * Message.t)) :
  page_of filter dir page limit db = Ok l →
  Sorted (in_order MessageRepository.byCreatedAt dir) l.
Proof. intros Hp. apply (paginate_Sorted _ _ _ _ _ Hp), sort_docs_Sorted. Qed.

Lemma take_page_elem {A} (limit : Z) (l : list A) (x : A) :
  x ∈ (if (limit =? 0)%Z then l else take (Z.to_nat (Z.abs limit)) l) → x ∈ l.
Proof. destruct (limit =? 0)%Z; [done|]. apply subseteq_take. Qed.

Lemma not_deleted (filter : gmap string qval) (m : Message.t) :
  filter !! "isDeleted" = Some (QBool false) →
  MessageRepository.matchesMessage filter m = true → Message.isDeleted m = false.
Proof.
  intros Hf Hm.
  apply (matches_path _ _ _ _ "isDeleted" (QBool false)) in Hm;
    [|unfold MessageRepository.paths; set_solver|done].
  unfold MessageRepository.holds in Hm. simpl in Hm. by destruct (Message.isDeleted m).
Qed.

Lemma page_entry_live (filter : gmap string qval) (dir page limit : Z)
    (db : gmap ObjectId Message.t) (l : list (ObjectId * Message.t))
    (i : ObjectId) (m : Message.t) :
  filter !! "isDeleted" = Some (QBool false) →
  page_of filter dir page limit db = Ok l → (i, m) ∈ l →
  db !! i = Some m ∧ Message.isDeleted m = false.
Proof.
  intros Hf Hp Hin. destruct (page_of_elem _ _ _ _ _ _ _ _ Hp Hin) as [Hs Hm].
  split; [done|]. exact (not_deleted _ _ Hf Hm).
Qed.

Lemma recent_entry_live (limit : Z) (w : World) (l : list (ObjectId * Message.t))
    (i : ObjectId) (m : Message.t) :
  (messageService.getRecentMessages limit w).1 = Ok l → (i, m) ∈ l →
  messageDb w !! i = Some m ∧ Message.isDeleted m = false.
Proof.
  intros H Hin. injection H as <-.
  apply take_page_elem, sort_docs_elem, find_docs_elem in Hin as [Hs Hm].
  split; [done|]. exact (not_deleted _ _ (lookup_insert_eq _ _ _) Hm).
Qed.

(** No listing shows a soft-deleted message.  Every entry of the case
    thread, of the unread feed, of the sent and received feeds and of the
    recent feed is a stored message with [isDeleted] false; in addition a
    thread entry belongs to the case asked for, a sent entry has the user as
    sender, and an unread or received entry has an entry for the user. *)
Theorem listings_hide_deleted (w : World) (i : ObjectId) (m : Message.t) :
  (∀ caseId page limit l,
     (MessageRepository.findByCase caseId page limit w).1 = Ok l → (i, m) ∈ l →
     messageDb w !! i = Some m ∧ Message.isDeleted m = false ∧ Message.case m = caseId) ∧
  (∀ uid page limit l,
     (MessageRepository.findUnreadByUser uid page limit w).1 = Ok l → (i, m) ∈ l →
     messageDb w !! i = Some m ∧ Message.isDeleted m = false ∧
     existsb (isRecipient uid) (Message.recipients m) = true) ∧
  (∀ uid page limit l,
     (messageRepo.findBySender uid page limit w).1 = Ok l → (i, m) ∈ l →
     messageDb w !! i = Some m ∧ Message.isDeleted m = false ∧
     s_userId (Message.sender m) = uid) ∧
  (∀ uid page limit l,
     (messageRepo.findByRecipient uid page limit w).1 = Ok l → (i, m) ∈ l →
     messageDb w !! i = Some m ∧ Message.isDeleted m = false ∧
     existsb (isRecipient uid) (Message.recipients m) = true) ∧
  (∀ limit l,
     (messageService.getRecentMessages limit w).1 = Ok l → (i, m) ∈ l →
     messageDb w !! i = Some m ∧ Message.isDeleted m = false).
Proof.
  repeat split.
  1-3: destruct (page_of_elem _ _ _ _ _ _ _ _ H H0) as [Hs Hm]; try done.
  - by apply (not_deleted _ _ (lookup_insert_eq _ _ _)) in Hm.
  - apply (matches_path _ _ _ _ "case" (QStr caseId)) in Hm;
      [by apply String.eqb_eq in Hm|unfold MessageRepository.paths; set_solver|].
    by lookups.
  - destruct (page_of_elem _ _ _ _ _ _ _ _ H H0) as [Hs Hm]; done.
  - destruct (page_of_elem _ _ _ _ _ _ _ _ H H0) as [Hs Hm].
    by apply (not_deleted _ _ (lookup_insert_eq _ _ _)) in Hm.
  - destruct (page_of_elem _ _ _ _ _ _ _ _ H H0) as [Hs Hm].
    apply (matches_path _ _ _ _ "recipients.userId" (QStr uid)) in Hm;
      [done|unfold MessageRepository.paths; set_solver|].
    unfold MessageRepository.unreadFilter. by lookups.
  - destruct (page_of_elem _ _ _ _ _ _ _ _ H H0) as [Hs Hm]; done.
  - destruct (page_of_elem _ _ _ _ _ _ _ _ H H0) as [Hs Hm].
    by apply (not_deleted _ _ (lookup_insert_eq _ _ _)) in Hm.
  - destruct (page_of_elem _ _ _ _ _ _ _ _ H H0) as [Hs Hm].
    apply (matches_path _ _ _ _ "sender.userId" (QStr uid)) in Hm;
      [by apply String.eqb_eq in Hm|unfold MessageRepository.paths; set_solver|].
    by lookups.
  - destruct (page_of_elem _ _ _ _ _ _ _ _ H H0) as [Hs Hm]; done.
  - destruct (page_of_elem _ _ _ _ _ _ _ _ H H0) as [Hs Hm].
    by apply (not_deleted _ _ (lookup_insert_eq _ _ _)) in Hm.
  - destruct (page_of_elem _ _ _ _ _ _ _ _ H H0) as [Hs Hm].
    apply (matches_path _ _ _ _ "recipients.userId" (QStr uid)) in Hm;
      [done|unfold MessageRepository.paths; set_solver|].
    by lookups.
  - injection H as <-. apply take_page_elem, sort_docs_elem, find_docs_elem in H0.
    by destruct H0.
  - injection H as <-. apply take_page_elem, sort_docs_elem, find_docs_elem in H0
      as [_ Hm].
    by apply (not_deleted _ _ (lookup_insert_eq _ _ _)) in Hm.
Qed.

Lemma listings_hide_deleted_witness :
  messageDb sampleWorld !! "m1" =
    Some (mkMessage "client1" [mkRecipient (Some "u1") false None;
                               mkRecipient (Some "u2") true (Some 60%Z)]) ∧
  Message.isDeleted (mkMessage "client1" [mkRecipient (Some "u1") false None;
                                          mkRecipient (Some "u2") true (Some 60%Z)])
    = false ∧
  s_userId (Message.sender
              (mkMessage "client1" [mkRecipient (Some "u1") false None;
                                    mkRecipient (Some "u2") true (Some 60%Z)]))
    = "client1".
Proof.
  apply (proj1 (proj2 (proj2 (listings_hide_deleted sampleWorld "m1"
           (mkMessage "client1" [mkRecipient (Some "u1") false None;
                                 mkRecipient (Some "u2") true (Some 60%Z)]))))
           "client1" 1%Z 20%Z
           [("m1", mkMessage "client1" [mkRecipient (Some "u1") false None;
                                        mkRecipient (Some "u2") true (Some 60%Z)])]).
  - vm_compute. reflexivity.
  - apply list_elem_of_singleton. reflexivity.
Defined.

(** ** Soft deletion *)

Lemma deleteMessage_run (i : ObjectId) (u : User) (w : World) :
  MessageService.deleteMessage i u w =
  match messageDb w !! i with
  | None => (Throw NotFound, w)
  | Some m =>
      if negb (String.eqb (role u) "admin")
         && negb (String.eqb (s_userId (Message.sender m)) (id u))
      then (Throw Forbidden, w)
      else (Ok (Some (Message.set_isDeleted true m)),
            {| clock := clock w; ticks := ticks w; caseDb := caseDb w;
               messageDb := <[i := Message.set_isDeleted true m]> (messageDb w) |})
  end.
Proof.
  unfold MessageService.deleteMessage.
  rewrite (bind_run _ _ _ _ _ (findById_run i w)).
  destruct (messageDb w !! i) as [m|] eqn:Hm; [|done].
  destruct (_ && _); [done|].
  unfold MessageRepository.deleteById. run. by rewrite Hm.
Qed.

(** [deleteMessage] never removes a message: whatever it answers, the same
    ids are stored afterwards.  It succeeds exactly for an admin or for the
    sender of an existing message, and then the stored message is the old
    one with [isDeleted] set, every other field, [updatedAt] included, as it
    was; a missing message gives NotFound and anyone else Forbidden, with
    nothing changed. *)
Theorem deleteMessage_soft (i : ObjectId) (u : User) (w : World) :
  dom (messageDb (MessageService.deleteMessage i u w).2) = dom (messageDb w) ∧
  match messageDb w !! i with
  | None => MessageService.deleteMessage i u w = (Throw NotFound, w)
  | Some m =>
      if String.eqb (role u) "admin" || String.eqb (s_userId (Message.sender m)) (id u)
      then
        (MessageService.deleteMessage i u w).1 = Ok (Some (Message.set_isDeleted true m)) ∧
        messageDb (MessageService.deleteMessage i u w).2
          = <[i := Message.set_isDeleted true m]> (messageDb w) ∧
        caseDb (MessageService.deleteMessage i u w).2 = caseDb w
      else MessageService.deleteMessage i u w = (Throw Forbidden, w)
  end.
Proof.
  rewrite deleteMessage_run.
  destruct (messageDb w !! i) as [m|] eqn:Hm; [|done].
  destruct (String.eqb (role u) "admin"),
    (String.eqb (s_userId (Message.sender m)) (id u)); simpl; split; try done;
    rewrite dom_insert_L; apply elem_of_dom_2 in Hm;
    apply subseteq_union_1_L; by apply singleton_subseteq_l.
Qed.

(** Deleting and listing compose: once [deleteMessage] has succeeded for an
    id, no case thread, unread feed, sent feed, received feed or recent feed
    computed afterwards contains that id. *)
Theorem deleted_message_disappears (i : ObjectId) (u : User) (w w' : World)
    (r : option Message.t) (m : Message.t) :
  MessageService.deleteMessage i u w = (Ok r, w') →
  (∀ caseId page limit l,
     (MessageRepository.findByCase caseId page limit w').1 = Ok l → (i, m) ∉ l) ∧
  (∀ uid page limit l,
     (MessageRepository.findUnreadByUser uid page limit w').1 = Ok l → (i, m) ∉ l) ∧
  (∀ uid page limit l,
     (messageRepo.findBySender uid page limit w').1 = Ok l → (i, m) ∉ l) ∧
  (∀ uid page limit l,
     (messageRepo.findByRecipient uid page limit w').1 = Ok l → (i, m) ∉ l) ∧
  (∀ limit l, (messageService.getRecentMessages limit w').1 = Ok l → (i, m) ∉ l).
Proof.
  rewrite deleteMessage_run.
  destruct (messageDb w !! i) as [m0|] eqn:Hm; [|discriminate].
  destruct (_ && _); [discriminate|]. intros [= <- <-].
  set (db' := <[i := Message.set_isDeleted true m0]> (messageDb w)).
  assert (¬ (db' !! i = Some m ∧ Message.isDeleted m = false)) as Hno.
  { intros [Hl Hd]. unfold db' in Hl. rewrite lookup_insert_eq in Hl.
    injection Hl as <-. discriminate. }
  repeat split.
  - intros caseId page limit l Hl Hin.
    exact (Hno (page_entry_live _ _ _ _ db' _ _ _ (lookup_insert_eq _ _ _) Hl Hin)).
  - intros uid page limit l Hl Hin. apply Hno.
    apply (page_entry_live (MessageRepository.unreadFilter uid) (-1) page limit db' l);
      [by unfold MessageRepository.unreadFilter; lookups|exact Hl|exact Hin].
  - intros uid page limit l Hl Hin.
    exact (Hno (page_entry_live _ _ _ _ db' _ _ _ (lookup_insert_eq _ _ _) Hl Hin)).
  - intros uid page limit l Hl Hin.
    exact (Hno (page_entry_live _ _ _ _ db' _ _ _ (lookup_insert_eq _ _ _) Hl Hin)).
  - intros limit l Hl Hin. exact (Hno (recent_entry_live _ _ _ _ _ Hl Hin)).
Qed.

Lemma deleted_message_disappears_witness :
  ("m1", Message.set_isDeleted true
           (mkMessage "client1" [mkRecipient (Some "u1") false None;
                                 mkRecipient (Some "u2") true (Some 60%Z)]))
  ∉ @nil (ObjectId * Message.t).
Proof.
  apply (proj2 (proj2 (proj2 (proj2
           (deleted_message_disappears "m1" (mkUser "client1" "client" None)
              sampleWorld
              (MessageService.deleteMessage "m1" (mkUser "client1" "client" None)
                 sampleWorld).2
              (Some (Message.set_isDeleted true
                       (mkMessage "client1" [mkRecipient (Some "u1") false None;
                                             mkRecipient (Some "u2") true (Some 60%Z)])))
              (Message.set_isDeleted true
                 (mkMessage "client1" [mkRecipient (Some "u1") false None;
                                       mkRecipient (Some "u2") true (Some 60%Z)]))
              eq_refl)))) 0%Z).
  vm_compute. reflexivity.
Defined.

(** ** The case thread *)

Lemma message_guard_raises (c : Case.t) (u : User) :
  raises_only (fun e => e = Forbidden ∨ e = TypeError)
    (MessageService._checkCaseAccess c u).
Proof.
  unfold MessageService._checkCaseAccess.
  destruct (String.eqb (role u) "admin"); [apply raises_ok|].
  apply raises_bind; [|intros _; apply raises_bind; [|intros _; apply raises_ok]].
  - destruct (String.eqb (role u) "client"); [|apply raises_ok].
    destruct (negb _); [apply raises_throw; auto|apply raises_ok].
  - destruct (String.eqb (role u) "panelist"); [|apply raises_ok].
    apply raises_bind.
    + destruct (Case.assignedPanelists c); [|apply raises_ok].
      apply Array_some_raises. intros ap e He.
      right. by apply (isActiveEntryOf_raises u ap).
    + intros []; [apply raises_ok|apply raises_throw; auto].
Qed.

Lemma message_guard_ok (c : Case.t) (u : User) (b : bool) :
  MessageService._checkCaseAccess c u = Ok b → b = true.
Proof.
  unfold MessageService._checkCaseAccess.
  destruct (String.eqb (role u) "admin"); [by intros [= <-]|].
  intros H. apply result_bind_inv in H as (? & _ & H).
  apply result_bind_inv in H as (? & _ & H). by injection H as <-.
Qed.

Lemma paginate_raises {A} (page limit : Z) (l : list A) :
  raises_only (fun e => e = StoreError) (paginate page limit l).
Proof. unfold paginate. destruct (_ <? 0)%Z; [by intros ? [= <-]|by intros ?]. Qed.

Lemma getMessagesByCase_run (caseId : ObjectId) (u : User) (page limit : Z) (w : World) :
  MessageService.getMessagesByCase caseId u page limit w =
  (match caseDb w !! caseId with
   | None => Throw NotFound
   | Some c =>
       match MessageService._checkCaseAccess c u with
       | Throw e => Throw e
       | Ok _ =>
           match page_of (<["isDeleted" := QBool false]> (<["case" := QStr caseId]> ∅))
                   1 page limit (messageDb w) with
           | Ok ms =>
               Ok (ms, pagination
                         (selected (MessageRepository.matchesMessage
                                      (<["isDeleted" := QBool false]>
                                         (<["case" := QStr caseId]> ∅)))
                            (messageDb w)) page limit)
           | Throw e => Throw e
           end
       end
   end, w).
Proof.
  unfold MessageService.getMessagesByCase.
  rewrite (bind_run _ _ _ _ _ (Case_findById_run caseId true w)).
  destruct (caseDb w !! caseId) as [c|]; simpl; [|done].
  unfold mbind at 1, M_bind at 1, lift.
  destruct (MessageService._checkCaseAccess c u); [|done].
  unfold MessageRepository.findByCase, MessageRepository.countByCase, page_of. run.
  by destruct (paginate _ _ _).
Qed.

(** The thread of a case is only read out to users the guard admits.
    [getMessagesByCase] changes nothing; it raises NotFound exactly when the
    case does not exist; and when it answers, the guard has said yes for
    this user on this case, every message listed is a stored, not deleted
    message of that case, the messages come oldest first, and the total is
    the number of such messages. *)
Theorem getMessagesByCase_guarded (caseId : ObjectId) (u : User) (page limit : Z)
    (w : World) :
  (MessageService.getMessagesByCase caseId u page limit w).2 = w ∧
  ((MessageService.getMessagesByCase caseId u page limit w).1 = Throw NotFound ↔
     caseDb w !! caseId = None) ∧
  ∀ ms pg,
    (MessageService.getMessagesByCase caseId u page limit w).1 = Ok (ms, pg) →
    (∃ c, caseDb w !! caseId = Some c ∧ MessageService._checkCaseAccess c u = Ok true) ∧
    oldest_first ms ∧
    (∀ i m, (i, m) ∈ ms →
            messageDb w !! i = Some m ∧ Message.case m = caseId ∧
            Message.isDeleted m = false) ∧
    (length ms ≤ total pg)%nat.
Proof.
  rewrite getMessagesByCase_run. simpl. split; [done|].
  destruct (caseDb w !! caseId) as [c|] eqn:Hc.
  2:{ split; [done|]. intros ms pg. discriminate. }
  pose proof (message_guard_raises c u) as Hg.
  destruct (MessageService._checkCaseAccess c u) as [b|e] eqn:Eg.
  2:{ split; [|intros ms pg; discriminate].
      split; [|discriminate]. intros [= ->]. by destruct (Hg NotFound eq_refl). }
  apply message_guard_ok in Eg as Hb. subst b.
  destruct (page_of _ _ _ _ _) as [ms0|e] eqn:Hp.
  2:{ split; [|intros ms pg; discriminate].
      split; [|discriminate]. intros [= ->].
      by pose proof (paginate_raises _ _ _ _ Hp). }
  split; [split; discriminate|]. intros ms pg [= <- <-].
  split; [by exists c|]. split; [|split].
  - eapply Sorted_weaken; [|exact (page_of_order _ _ _ _ _ _ Hp)].
    intros a b H. unfold in_order in H. simpl in H. by apply Z.leb_le in H.
  - intros i m Hin.
    assert ((MessageRepository.findByCase caseId page limit w).1 = Ok ms0) as Hf
      by exact Hp.
    destruct (page_of_elem _ _ _ _ _ _ _ _ Hp Hin) as [Hs Hm].
    split; [done|]. split; [|exact (not_deleted _ _ (lookup_insert_eq _ _ _) Hm)].
    apply (matches_path _ _ _ _ "case" (QStr caseId)) in Hm;
      [by apply String.eqb_eq in Hm|unfold MessageRepository.paths; set_solver|].
    by lookups.
  - simpl. unfold page_of in Hp. apply paginate_length in Hp as [Hl _].
    by rewrite sort_docs_length in Hl.
Qed.

Lemma getMessagesByCase_guarded_witness :
  (∃ c, caseDb sampleWorld !! "c1" = Some c ∧
        MessageService._checkCaseAccess c (mkUser "client1" "client" None) = Ok true) ∧
  oldest_first [("m1", mkMessage "client1" [mkRecipient (Some "u1") false None;
                                            mkRecipient (Some "u2") true (Some 60%Z)])] ∧
  (∀ i m, (i, m) ∈ [("m1", mkMessage "client1" [mkRecipient (Some "u1") false None;
                                                mkRecipient (Some "u2") true (Some 60%Z)])] →
          messageDb sampleWorld !! i = Some m ∧ Message.case m = "c1" ∧
          Message.isDeleted m = false) ∧
  (length [("m1", mkMessage "client1" [mkRecipient (Some "u1") false None;
                                       mkRecipient (Some "u2") true (Some 60%Z)])]
   ≤ total (pagination 1 1 20))%nat.
Proof.
  apply (proj2 (proj2 (getMessagesByCase_guarded "c1" (mkUser "client1" "client" None)
                         1 20 sampleWorld))).
  vm_compute. reflexivity.
Defined.



(** ** Bulk read marks *)

Lemma bulkMarkAsRead_run (ids : list ObjectId) (uid : ObjectId) (w : World) :
  MessageService.bulkMarkAsRead ids uid w =
  (Ok (length (List.filter
                 (fun d => MessageRepository.bulkSelected ids uid d.1 d.2)
                 (map_to_list (messageDb w)))),
   {| clock := clock w; ticks := S (ticks w); caseDb := caseDb w;
      messageDb :=
        map_imap (fun i m =>
          Some (if MessageRepository.bulkSelected ids uid i m
                then markedAll uid (clock w (ticks w)) m else m)) (messageDb w) |}).
Proof. reflexivity. Qed.

Lemma markedAll_entries (uid : ObjectId) (now : Time) (m : Message.t) :
  Forall (fun r => isRecipient uid r = true → isRead r = true ∧ readAt r = Some now)
    (Message.recipients (markedAll uid now m)).
Proof.
  unfold markedAll. simpl. apply Forall_fmap, Forall_forall. intros r _. simpl.
  destruct (isRecipient uid r) eqn:Hr; [by intros _|]. intros H. congruence.
Qed.

Lemma markedAll_not_unread (uid : ObjectId) (now : Time) (m : Message.t) :
  ownUnread uid (markedAll uid now m) = false.
Proof.
  unfold ownUnread. apply andb_false_intro2.
  apply not_true_is_false. rewrite existsb_exists. intros (r & Hin & Hr).
  apply andb_true_iff in Hr as [Hu Hread].
  pose proof (markedAll_entries uid now m) as Hall. rewrite Forall_forall in Hall.
  apply list_elem_of_In in Hin. destruct (Hall r Hin Hu) as [Hr _].
  by rewrite Hr in Hread.
Qed.

(** What [bulkMarkAsRead] does to a stored message.  The message stays
    stored with [updatedAt], [isDeleted] and every other field but the
    recipients as before (the update runs no save hook).  If its id is among
    the given ids, every entry of the user in it is afterwards read with
    [readAt] at the clock reading of the call, entries that were read before
    included, whose earlier [readAt] is overwritten.  If its id is not among
    them, the message is untouched. *)
Theorem bulkMarkAsRead_marks (ids : list ObjectId) (uid j : ObjectId)
    (m : Message.t) (w : World) :
  messageDb w !! j = Some m →
  ∃ m', messageDb (MessageService.bulkMarkAsRead ids uid w).2 !! j = Some m' ∧
        Message.set_recipients (Message.recipients m) m' = m ∧
        (j ∈ ids →
         Forall (fun r => isRecipient uid r = true →
                          isRead r = true ∧ readAt r = Some (clock w (ticks w)))
           (Message.recipients m')) ∧
        (j ∉ ids → m' = m).
Proof.
  intros Hm. rewrite bulkMarkAsRead_run. simpl.
  rewrite map_lookup_imap, Hm. simpl. eexists. split; [reflexivity|].
  unfold MessageRepository.bulkSelected.
  destruct (decide (j ∈ ids)) as [Hj|Hj].
  - rewrite bool_decide_eq_true_2 by done. simpl.
    destruct (existsb (isRecipient uid) (Message.recipients m)) eqn:He.
    + split; [by destruct m|]. split; [|done]. intros _. apply markedAll_entries.
    + split; [by destruct m|]. split; [|done]. intros _.
      apply Forall_forall. intros r Hin Hr.
      assert (existsb (isRecipient uid) (Message.recipients m) = true) as Ht.
      { apply existsb_exists. exists r. by rewrite <- list_elem_of_In. }
      congruence.
  - rewrite bool_decide_eq_false_2 by done. simpl.
    split; [by destruct m|]. by split.
Qed.

Lemma bulkMarkAsRead_marks_witness :
  ∃ m', messageDb (MessageService.bulkMarkAsRead ["m1"] "u2" sampleWorld).2 !! "m1"
          = Some m' ∧
        Message.set_recipients
          [mkRecipient (Some "u1") false None; mkRecipient (Some "u2") true (Some 60%Z)]
          m' =
        mkMessage "client1" [mkRecipient (Some "u1") false None;
                             mkRecipient (Some "u2") true (Some 60%Z)] ∧
        ("m1" ∈ ["m1"] →
         Forall (fun r => isRecipient "u2" r = true →
                          isRead r = true ∧ readAt r = Some 100%Z)
           (Message.recipients m')) ∧
        ("m1" ∉ ["m1"] →
         m' = mkMessage "client1" [mkRecipient (Some "u1") false None;
                                   mkRecipient (Some "u2") true (Some 60%Z)]).
Proof.
  apply (bulkMarkAsRead_marks ["m1"] "u2" "m1"
           (mkMessage "client1" [mkRecipient (Some "u1") false None;
                                 mkRecipient (Some "u2") true (Some 60%Z)])
           sampleWorld).
  reflexivity.
Defined.

Lemma filter_none {A} (p : A → bool) (l : list A) :
  (∀ x, x ∈ l → p x = false) → List.filter p l = [].
Proof.
  induction l as [|x l IH]; simpl; [done|]. intros H.
  rewrite (H x) by apply list_elem_of_here. apply IH. intros y Hy. apply H. by right.
Qed.

(** Marking everything read really clears the user's own unread messages:
    if the given ids cover every stored message in which an entry of the
    user is unread, then after [bulkMarkAsRead] no stored, not deleted
    message has an unread entry of that user. *)
Theorem bulkMarkAsRead_clears_own_unread (ids : list ObjectId) (uid : ObjectId)
    (w : World) :
  (∀ j m, messageDb w !! j = Some m → ownUnread uid m = true → j ∈ ids) →
  spec_unreadCount uid (messageDb (MessageService.bulkMarkAsRead ids uid w).2) = 0%nat.
Proof.
  intros Hcover. rewrite bulkMarkAsRead_run. simpl.
  unfold spec_unreadCount, find_docs. rewrite filter_none; [done|].
  intros [j m'] Hin. simpl. apply elem_of_map_to_list in Hin.
  rewrite map_lookup_imap in Hin.
  destruct (messageDb w !! j) as [m|] eqn:Hm; [|discriminate].
  simpl in Hin. injection Hin as <-.
  destruct (MessageRepository.bulkSelected ids uid j m) eqn:Hsel.
  - apply markedAll_not_unread.
  - destruct (ownUnread uid m) eqn:Hu; [|done].
    specialize (Hcover j m Hm Hu).
    unfold MessageRepository.bulkSelected in Hsel.
    rewrite bool_decide_eq_true_2 in Hsel by done. simpl in Hsel.
    unfold ownUnread in Hu. apply andb_true_iff in Hu as [_ Hu].
    apply existsb_exists in Hu as (r & Hin & Hr).
    apply andb_true_iff in Hr as [Hr _].
    assert (existsb (isRecipient uid) (Message.recipients m) = true) as Ht
      by (apply existsb_exists; eauto).
    congruence.
Qed.

Lemma bulkMarkAsRead_clears_own_unread_witness :
  spec_unreadCount "u1"
    (messageDb (MessageService.bulkMarkAsRead ["m1"] "u1" sampleWorld).2) = 0%nat.
Proof.
  apply (bulkMarkAsRead_clears_own_unread ["m1"] "u1" sampleWorld).
  intros j m Hm _. unfold sampleWorld, mkWorld, sampleMessages in Hm. simpl in Hm.
  destruct (decide (j = "m1")) as [->|Hne]; [apply list_elem_of_here|].
  by rewrite lookup_singleton_ne in Hm.
Defined.

(** ** The unread feed *)

(** [getUnreadMessages] changes nothing and is consistent with
    [getUnreadCount]: its [unreadCount] and the total of its pagination are
    the number [getUnreadCount] gives for the same user, and the page holds
    no more messages than that. *)
Theorem getUnreadMessages_count (uid : ObjectId) (page limit : Z) (w : World) :
  (MessageService.getUnreadMessages uid page limit w).2 = w ∧
  ∀ ms n pg,
    (MessageService.getUnreadMessages uid page limit w).1 = Ok (ms, n, pg) →
    MessageService.getUnreadCount uid w = (Ok n, w) ∧
    total pg = n ∧ (length ms ≤ n)%nat.
Proof.
  unfold MessageService.getUnreadMessages, MessageService.getUnreadCount,
    MessageRepository.findUnreadByUser, MessageRepository.countUnreadByUser,
    MessageRepository.Message_getUnreadCount. run.
  destruct (paginate _ _ _) as [l|e] eqn:Hp; simpl; [|split; [done|discriminate]].
  split; [done|]. intros ms n pg [= <- <- <-]. repeat split.
  apply paginate_length in Hp as [Hl _]. by rewrite sort_docs_length in Hl.
Qed.

Lemma getUnreadMessages_count_witness :
  MessageService.getUnreadCount "u1" sampleWorld = (Ok 1%nat, sampleWorld) ∧
  total (pagination 1 1 20) = 1%nat ∧
  (length [("m1", mkMessage "client1" [mkRecipient (Some "u1") false None;
                                       mkRecipient (Some "u2") true (Some 60%Z)])]
   ≤ 1)%nat.
Proof.
  apply (proj2 (getUnreadMessages_count "u1" 1 20 sampleWorld)
           [("m1", mkMessage "client1" [mkRecipient (Some "u1") false None;
                                        mkRecipient (Some "u2") true (Some 60%Z)])]
           1%nat (pagination 1 1 20)).
  vm_compute. reflexivity.
Defined.
